(** * Google Mesh: mesh router, offline outbox, sync manager, request queue

    A shallow embedding of the four services of the repository,

    - [NearbyConnectionsService] (flood relay over a broadcast channel),
    - [OfflineStorageService]    (IndexedDB outbox with LocalStorage fallback),
    - [SyncManager]              (drains the outbox to the remote database),
    - the Gemini request queue   (sequential calls with back-off),

    followed by the properties of the specification that concern them.

    Conventions.  JavaScript numbers that the code only ever uses as integers
    (hop counts, epoch milliseconds, counters) are [Z] or [nat].  [Date.now()]
    and [Math.random()] are inputs of the operation that calls them.  What a
    method does to the outside world (handler calls, timers, channel posts,
    listener notifications) is returned as a list of effects in program
    order; [console] output is left out.  An [async] method is one atomic
    step: no other operation is interleaved at its [await]s; a call whose
    promise is not awaited is split at its first [await].  A message
    handler is client code: of what it does while it runs, the model has
    its calls of [onMessage] and of the functions [onMessage] returned,
    which change the array the router is iterating over. *)

From stdpp Require Import gmap strings list sorting pretty relations.
From Stdlib Require Import ZArith Lia.

Open Scope Z_scope.

(* ===================================================================== *)
(** ** NearbyConnectionsService *)
(* ===================================================================== *)

Module Mesh.

(** The object posted on the channel.  Both senders of the repository
    ([broadcastSOS]/[broadcastChat] and [forwardMessage]) set a numeric
    [hops], so the default of the destructuring [hops = 0] never applies
    and [hops] is a plain number. *)
Record MeshData := mkMeshData {
  type : string;
  payload : string;
  messageId : string;
  hops : Z;
  timestamp : Z;
  senderId : string;
  forwardedBy : option string
}.

(** The value stored in [messageCache]. *)
Record CacheEntry := mkCacheEntry {
  ce_timestamp : Z;
  ce_hops : Z;
  ce_type : string;
  ce_payload : string
}.

(** The argument a handler receives: [{ type, payload, messageId, hops, senderId }]. *)
Record HandlerArg := mkHandlerArg {
  ha_type : string;
  ha_payload : string;
  ha_messageId : string;
  ha_hops : Z;
  ha_senderId : string
}.

(** A registered callback, known by its identity only ([indexOf] compares
    handlers by identity).  An exception it raises is caught inside the
    [forEach]. *)
Definition Handler := nat.

(** What a handler does to the registry while it runs: it may register a
    handler, and call the function [onMessage] returned for one. *)
Inductive Action :=
| Register (h : Handler)        (* onMessage(h) *)
| Unregister (h : Handler).     (* the function returned by onMessage(h) *)

(** The client code behind the handlers: what the callback that the
    [forEach] finds at index [k], handler [h], does to the registry when it
    is called with [arg]. *)
Definition Client := nat -> Handler -> HandlerArg -> list Action.

(** Handlers that leave the registry alone. *)
Definition quiet : Client := fun _ _ _ => [].

Inductive Effect :=
| Notify (h : Handler) (arg : HandlerArg)        (* handler(arg) *)
| SetTimeout (delay : Z) (forwardedData : MeshData)
    (* setTimeout(() => meshChannel.postMessage(forwardedData), delay) *)
| PostMessage (message : MeshData).              (* meshChannel.postMessage *)

Record Service := mkService {
  deviceId : string;
  messageCache : gmap string CacheEntry;
  messageHandlers : list Handler;
  maxHops : Z;
  ttl : Z
}.

Definition constructor (deviceId : string) : Service :=
  {| deviceId := deviceId;
     messageCache := ∅;
     messageHandlers := [];
     maxHops := 5;
     ttl := 300000 |}.

Definition set_messageCache (c : gmap string CacheEntry) (s : Service) : Service :=
  {| deviceId := deviceId s;
     messageCache := c;
     messageHandlers := messageHandlers s;
     maxHops := maxHops s;
     ttl := ttl s |}.

Definition set_messageHandlers (hs : list Handler) (s : Service) : Service :=
  {| deviceId := deviceId s;
     messageCache := messageCache s;
     messageHandlers := hs;
     maxHops := maxHops s;
     ttl := ttl s |}.

(** [{ ...originalData, hops: newHops, forwardedBy: this.deviceId }] *)
Definition forwardedData (originalData : MeshData) (newHops : Z) (by_ : string) : MeshData :=
  {| type := type originalData;
     payload := payload originalData;
     messageId := messageId originalData;
     hops := newHops;
     timestamp := timestamp originalData;
     senderId := senderId originalData;
     forwardedBy := Some by_ |}.

(** [random] stands for [Math.random() * 200], so the timer delay
    [100 + random] lies in [100, 300). *)
Definition forwardMessage (random : Z) (originalData : MeshData) (s : Service)
  : list Effect :=
  let newHops := hops originalData + 1 in
  if maxHops s <=? newHops then []
  else [SetTimeout (100 + random) (forwardedData originalData newHops (deviceId s))].

Definition handlerArg (data : MeshData) : HandlerArg :=
  {| ha_type := type data;
     ha_payload := payload data;
     ha_messageId := messageId data;
     ha_hops := hops data;
     ha_senderId := senderId data |}.

Definition cacheEntry (data : MeshData) : CacheEntry :=
  {| ce_timestamp := timestamp data;
     ce_hops := hops data;
     ce_type := type data;
     ce_payload := payload data |}.

(** The four guards of [handleIncomingMessage], in source order. *)
Definition accepts (now : Z) (data : MeshData) (s : Service) : bool :=
  negb (String.eqb (senderId data) (deviceId s))
  && negb (bool_decide (is_Some (messageCache s !! messageId data)))
  && negb (maxHops s <=? hops data)
  && negb (ttl s <? now - timestamp data).

(** [indexOf] + [splice(index, 1)]: the first occurrence is removed. *)
Fixpoint remove_first (h : Handler) (hs : list Handler) : list Handler :=
  match hs with
  | [] => []
  | h' :: hs' => if Nat.eqb h h' then hs' else h' :: remove_first h hs'
  end.

Definition act (hs : list Handler) (a : Action) : list Handler :=
  match a with
  | Register h => hs ++ [h]
  | Unregister h => remove_first h hs
  end.

(** [this.messageHandlers.forEach(handler => { try { handler(arg) } catch ... })]
    on the live array.  [forEach] reads the length once; it then visits the
    indices below that length in ascending order and calls the callback for
    each index the array still has, with the element found there at that
    moment.  [n] is the number of indices left to visit, [k] the next one,
    [hs] the array as the handlers called so far have left it. *)
Fixpoint forEach_from (client : Client) (arg : HandlerArg) (n k : nat) (hs : list Handler)
  : list Handler * list Effect :=
  match n with
  | O => (hs, [])
  | S n' =>
      match hs !! k with
      | None => forEach_from client arg n' (S k) hs
      | Some h =>
          let '(hs', es) := forEach_from client arg n' (S k) (foldl act hs (client k h arg)) in
          (hs', Notify h arg :: es)
      end
  end.

Definition forEach (client : Client) (arg : HandlerArg) (hs : list Handler)
  : list Handler * list Effect :=
  forEach_from client arg (length hs) 0 hs.

(** No handler called by the [forEach] over [hs] touches the registry. *)
Definition registry_untouched (client : Client) (arg : HandlerArg) (hs : list Handler)
  : Prop :=
  forall k h, hs !! k = Some h -> client k h arg = [].

Definition handleIncomingMessage (now random : Z) (client : Client) (data : MeshData)
    (s : Service) : Service * list Effect :=
  if String.eqb (senderId data) (deviceId s) then (s, [])
  else if bool_decide (is_Some (messageCache s !! messageId data)) then (s, [])
  else if maxHops s <=? hops data then (s, [])
  else if ttl s <? now - timestamp data then (s, [])
  else
    let s' := set_messageCache (<[messageId data := cacheEntry data]> (messageCache s)) s in
    let '(hs, es) := forEach client (handlerArg data) (messageHandlers s') in
    let s'' := set_messageHandlers hs s' in
    (s'', es ++ forwardMessage random data s'').

(** What the timer callback of [forwardMessage] does when it fires. *)
Definition fire (e : Effect) : list Effect :=
  match e with
  | SetTimeout _ fwd => [PostMessage fwd]
  | _ => []
  end.

(** [broadcastSOS] reads the clock twice: once for the id, once for the
    timestamp. *)
Definition broadcast (kind prefix : string) (now_id now_ts : Z) (data : string)
    (s : Service) : string * Service * list Effect :=
  let messageId := (prefix +:+ deviceId s +:+ "_" +:+ pretty now_id)%string in
  let message :=
    {| type := kind; payload := data; messageId := messageId; hops := 0;
       timestamp := now_ts; senderId := deviceId s; forwardedBy := None |} in
  (messageId, s, [PostMessage message]).

Definition broadcastSOS := broadcast "SOS_BROADCAST" "sos_".
Definition broadcastChat := broadcast "CHAT_BROADCAST" "chat_".

Definition onMessage (h : Handler) (s : Service) : Service :=
  set_messageHandlers (messageHandlers s ++ [h]) s.

Definition unsubscribe (h : Handler) (s : Service) : Service :=
  set_messageHandlers (remove_first h (messageHandlers s)) s.

Definition cleanupOldMessages (now : Z) (s : Service) : Service :=
  set_messageCache
    (filter (fun kv => negb (ttl s <? now - ce_timestamp (snd kv)) = true) (messageCache s)) s.

Definition destroy (s : Service) : Service :=
  set_messageHandlers [] (set_messageCache ∅ s).

(** Reading the effects. *)
Definition notifications (es : list Effect) : list (Handler * HandlerArg) :=
  omap (fun e => match e with Notify h a => Some (h, a) | _ => None end) es.

Definition forwards (es : list Effect) : list MeshData :=
  omap (fun e => match e with SetTimeout _ d => Some d | _ => None end) es.

Definition posts (es : list Effect) : list MeshData :=
  omap (fun e => match e with PostMessage d => Some d | _ => None end) es.

End Mesh.

(* ===================================================================== *)
(** ** Results of operations that may throw (or reject their promise) *)
(* ===================================================================== *)

Inductive Error :=
| TypeError             (* a property of [null] is read *)
| InvalidStateError     (* a transaction on a closed database *)
| ConstraintError       (* a unique index is violated *)
| UploadError.          (* the remote database rejects a write *)

Inductive Result (A : Type) :=
| Ok (a : A)
| Throw (e : Error).
Arguments Ok {A} a.
Arguments Throw {A} e.

Definition is_ok {A} (r : Result A) : bool :=
  match r with Ok _ => true | Throw _ => false end.

(* ===================================================================== *)
(** ** OfflineStorageService *)
(* ===================================================================== *)

Module Outbox.

(** A stored record.  [id] is the primary key that IndexedDB generates
    ([keyPath: 'id', autoIncrement: true]); LocalStorage records have
    none.  [syncedAt] exists once the record was marked. *)
Record StoredRecord := mkRecord {
  id : option nat;
  messageId : string;
  type : string;
  payload : string;
  timestamp : Z;
  synced : bool;
  retryCount : nat;
  syncedAt : option Z
}.

(** The argument of [storeMessage]: [{ type, payload, messageId }]. *)
Record Message := mkMessage {
  m_messageId : option string;
  m_type : string;
  m_payload : string
}.

Definition set_id (k : nat) (r : StoredRecord) : StoredRecord :=
  {| id := Some k; messageId := messageId r; type := type r; payload := payload r;
     timestamp := timestamp r; synced := synced r; retryCount := retryCount r;
     syncedAt := syncedAt r |}.

(** [{ ...msg, synced: true, syncedAt: Date.now() }], and likewise the two
    assignments of [markSyncedInIndexedDB]. *)
Definition mark (now : Z) (r : StoredRecord) : StoredRecord :=
  {| id := id r; messageId := messageId r; type := type r; payload := payload r;
     timestamp := timestamp r; synced := true; retryCount := retryCount r;
     syncedAt := Some now |}.

(** *** The part of IndexedDB the service uses *)

(** Values found at a key path, and the keys IndexedDB derives from them.
    In IndexedDB a key is a number, a date, a string, a binary or an array;
    a boolean is not a key.  That is the [DataError] the comments in
    [getIndexedDBMessages] and [clearSyncedFromIndexedDB] avoid by opening
    the cursor without a key range ([IDBKeyRange.only(false)] throws), and
    it is also why a record whose indexed property is a boolean gets no
    entry in that index: when a record is stored, an index whose key path
    does not yield a key is skipped.

    Whether booleans are keys is a property of the database engine, not of
    this repository, so it is a field of the database, [booleanKeys]; an
    engine that follows the standard has [false], and this is what
    [emptyStore] has.  Most properties below hold either way. *)
Inductive JsValue :=
| VUndefined
| VBool (b : bool)
| VNumber (z : Z)
| VString (s : string).

Inductive IdbKey :=
| KBoolean (b : bool)
| KNumber (z : Z)
| KString (s : string).

Definition to_key (booleanKeys : bool) (v : JsValue) : option IdbKey :=
  match v with
  | VNumber z => Some (KNumber z)
  | VString s => Some (KString s)
  | VBool b => if booleanKeys then Some (KBoolean b) else None
  | VUndefined => None
  end.

(** Numbers sort before strings (and, where they are keys, [false] before
    [true] before every number). *)
Definition key_ltb (a b : IdbKey) : bool :=
  match a, b with
  | KBoolean x, KBoolean y => negb x && y
  | KBoolean _, _ => true
  | _, KBoolean _ => false
  | KNumber x, KNumber y => x <? y
  | KNumber _, KString _ => true
  | KString _, KNumber _ => false
  | KString x, KString y => negb (String.leb y x)
  end.

Definition key_eqb (a b : IdbKey) : bool :=
  match a, b with
  | KBoolean x, KBoolean y => Bool.eqb x y
  | KNumber x, KNumber y => x =? y
  | KString x, KString y => String.eqb x y
  | _, _ => false
  end.

(** The four indexes [openDatabase] creates; the key path of each has the
    name of the index. *)
Inductive IndexName := IxMessageId | IxTimestamp | IxType | IxSynced.

Definition key_path (ix : IndexName) (r : StoredRecord) : JsValue :=
  match ix with
  | IxMessageId => VString (messageId r)
  | IxTimestamp => VNumber (timestamp r)
  | IxType => VString (type r)
  | IxSynced => VBool (synced r)
  end.

Definition unique (ix : IndexName) : bool :=
  match ix with IxMessageId => true | _ => false end.

Definition index_key (booleanKeys : bool) (ix : IndexName) (r : StoredRecord)
  : option IdbKey :=
  to_key booleanKeys (key_path ix r).

(** The object store: its records in primary-key order (the order in which
    [add] appended them), the key generator, and the engine's treatment of
    booleans. *)
Record ObjectStore := mkObjectStore {
  rows : list StoredRecord;
  keyGenerator : nat;
  booleanKeys : bool
}.

Definition emptyStore : ObjectStore :=
  {| rows := []; keyGenerator := 1; booleanKeys := false |}.

Definition set_rows (rs : list StoredRecord) (os : ObjectStore) : ObjectStore :=
  {| rows := rs; keyGenerator := keyGenerator os; booleanKeys := booleanKeys os |}.

(** The entries of an index: the records that have a key in it, by key and
    then by primary key. *)
Fixpoint index_insert (k : IdbKey) (r : StoredRecord) (es : list (IdbKey * StoredRecord))
  : list (IdbKey * StoredRecord) :=
  match es with
  | [] => [(k, r)]
  | (k', r') :: es' =>
      if key_ltb k' k then (k', r') :: index_insert k r es' else (k, r) :: es
  end.

Fixpoint index_entries (booleanKeys : bool) (ix : IndexName) (rs : list StoredRecord)
  : list (IdbKey * StoredRecord) :=
  match rs with
  | [] => []
  | r :: rs' =>
      match index_key booleanKeys ix r with
      | Some k => index_insert k r (index_entries booleanKeys ix rs')
      | None => index_entries booleanKeys ix rs'
      end
  end.

(** [index.openCursor()]: the records the cursor visits, in order. *)
Definition index_openCursor (ix : IndexName) (os : ObjectStore) : list StoredRecord :=
  snd <$> index_entries (booleanKeys os) ix (rows os).

(** [index.get(key)]: the first record with that key, or [undefined]. *)
Definition index_get (ix : IndexName) (v : JsValue) (os : ObjectStore)
  : option StoredRecord :=
  match to_key (booleanKeys os) v with
  | Some k => snd <$> head (filter (fun e => key_eqb (fst e) k = true)
                              (index_entries (booleanKeys os) ix (rows os)))
  | None => None
  end.

Definition violates_unique (booleanKeys : bool) (r : StoredRecord)
    (others : list StoredRecord) : bool :=
  existsb (fun ix =>
    unique ix &&
    match index_key booleanKeys ix r with
    | Some k => existsb (fun r' => match index_key booleanKeys ix r' with
                                   | Some k' => key_eqb k k'
                                   | None => false
                                   end) others
    | None => false
    end) [IxMessageId; IxTimestamp; IxType; IxSynced].

(** [objectStore.add(record)] for a record without [id]. *)
Definition add (r : StoredRecord) (os : ObjectStore) : Result nat * ObjectStore :=
  if violates_unique (booleanKeys os) r (rows os) then (Throw ConstraintError, os)
  else (Ok (keyGenerator os),
        {| rows := rows os ++ [set_id (keyGenerator os) r];
           keyGenerator := S (keyGenerator os);
           booleanKeys := booleanKeys os |}).

Definition same_id (a b : StoredRecord) : bool :=
  match id a, id b with
  | Some x, Some y => Nat.eqb x y
  | _, _ => false
  end.

Definition id_ltb (a b : StoredRecord) : bool :=
  match id a, id b with
  | Some x, Some y => Nat.ltb x y
  | _, _ => false
  end.

Fixpoint put_row (r : StoredRecord) (rs : list StoredRecord) : list StoredRecord :=
  match rs with
  | [] => [r]
  | r' :: rs' =>
      if same_id r r' then r :: rs'
      else if id_ltb r r' then r :: rs
      else r' :: put_row r rs'
  end.

(** [objectStore.put(record)] for a record that carries its [id]. *)
Definition put (r : StoredRecord) (os : ObjectStore) : Result unit * ObjectStore :=
  if violates_unique (booleanKeys os) r (filter (fun r' => same_id r r' = false) (rows os))
  then (Throw ConstraintError, os)
  else (Ok tt, set_rows (put_row r (rows os)) os).

(** [cursor.delete()] on the record [r]. *)
Definition delete_row (r : StoredRecord) (os : ObjectStore) : ObjectStore :=
  set_rows (filter (fun r' => same_id r r' = false) (rows os)) os.

(** *** The service *)

Inductive DbHandle :=
| NoDb       (* [this.db = null]: [init] has not opened the database *)
| OpenDb
| ClosedDb.  (* after [destroy] *)

#[export] Instance DbHandle_eq_dec : EqDecision DbHandle.
Proof. solve_decision. Defined.

(** The object ([db], [useLocalStorage]) together with what lives in the
    browser and outlasts it: the object store of [GoogleSOSDB] and the
    LocalStorage item [google_sos_pending] ([None] when the item does not
    exist; its JSON text is kept parsed). *)
Record Storage := mkStorage {
  db : DbHandle;
  useLocalStorage : bool;
  objectStore : ObjectStore;
  google_sos_pending : option (list StoredRecord)
}.

Definition set_objectStore (os : ObjectStore) (st : Storage) : Storage :=
  {| db := db st; useLocalStorage := useLocalStorage st;
     objectStore := os; google_sos_pending := google_sos_pending st |}.

Definition setItem (rs : list StoredRecord) (st : Storage) : Storage :=
  {| db := db st; useLocalStorage := useLocalStorage st;
     objectStore := objectStore st; google_sos_pending := Some rs |}.

(** The browser with nothing stored yet. *)
Definition fresh_browser : ObjectStore * option (list StoredRecord) := (emptyStore, None).

(** [new OfflineStorageService()] followed by the completion of [init];
    [idb_ok] says whether [indexedDB.open] succeeds. *)
Definition constructor (idb_ok : bool)
    (browser : ObjectStore * option (list StoredRecord)) : Storage :=
  {| db := if idb_ok then OpenDb else NoDb;
     useLocalStorage := negb idb_ok;
     objectStore := fst browser;
     google_sos_pending := snd browser |}.

Definition browser_of (st : Storage) : ObjectStore * option (list StoredRecord) :=
  (objectStore st, google_sos_pending st).

(** A process restart: the object is gone, the browser's data is not. *)
Definition restart (idb_ok : bool) (st : Storage) : Storage :=
  constructor idb_ok (browser_of st).

Definition destroy (st : Storage) : Storage :=
  {| db := match db st with NoDb => NoDb | _ => ClosedDb end;
     useLocalStorage := useLocalStorage st;
     objectStore := objectStore st;
     google_sos_pending := google_sos_pending st |}.

(** [this.db.transaction(...)] *)
Definition transaction (st : Storage) : Result unit :=
  match db st with
  | OpenDb => Ok tt
  | NoDb => Throw TypeError
  | ClosedDb => Throw InvalidStateError
  end.

Definition getLocalStorageMessages (st : Storage) : list StoredRecord :=
  match google_sos_pending st with
  | Some stored => stored
  | None => []
  end.

Definition storeInIndexedDB (record : StoredRecord) (st : Storage)
  : Result JsValue * Storage :=
  match transaction st with
  | Throw e => (Throw e, st)
  | Ok _ =>
      match add record (objectStore st) with
      | (Ok k, os) => (Ok (VNumber (Z.of_nat k)), set_objectStore os st)
      | (Throw e, _) => (Throw e, st)
      end
  end.

(** [localStorage.setItem] is taken to succeed (a full quota, the one way
    it throws, is outside the model), so the [catch] branches of the
    LocalStorage methods are never entered. *)
Definition storeInLocalStorage (record : StoredRecord) (st : Storage)
  : Result JsValue * Storage :=
  (Ok (VString (messageId record)), setItem (getLocalStorageMessages st ++ [record]) st).

(** [message.messageId || `msg_${Date.now()}_${Math.random()}`]: an absent
    or empty id is replaced.  [now_id] is the clock read for the id,
    [random] the printed random number, [now] the clock read for the
    timestamp. *)
Definition newRecord (now_id : Z) (random : string) (now : Z) (message : Message)
  : StoredRecord :=
  {| id := None;
     messageId := match m_messageId message with
                  | Some s => if String.eqb s "" then "msg_" +:+ pretty now_id +:+ "_" +:+ random else s
                  | None => "msg_" +:+ pretty now_id +:+ "_" +:+ random
                  end;
     type := m_type message;
     payload := m_payload message;
     timestamp := now;
     synced := false;
     retryCount := 0;
     syncedAt := None |}.

Definition storeMessage (now_id : Z) (random : string) (now : Z) (message : Message)
    (st : Storage) : Result JsValue * Storage :=
  let record := newRecord now_id random now message in
  if useLocalStorage st then storeInLocalStorage record st
  else storeInIndexedDB record st.

Definition getIndexedDBMessages (st : Storage) : Result (list StoredRecord) :=
  match transaction st with
  | Throw e => Throw e
  | Ok _ => Ok (filter (fun r => synced r = false) (index_openCursor IxSynced (objectStore st)))
  end.

Definition getPendingMessages (st : Storage) : Result (list StoredRecord) :=
  if useLocalStorage st
  then Ok (filter (fun msg => synced msg = false) (getLocalStorageMessages st))
  else getIndexedDBMessages st.

Definition markSyncedInIndexedDB (now : Z) (messageId : string) (st : Storage)
  : Result unit * Storage :=
  match transaction st with
  | Throw e => (Throw e, st)
  | Ok _ =>
      match index_get IxMessageId (VString messageId) (objectStore st) with
      | Some record =>
          match put (mark now record) (objectStore st) with
          | (Ok _, os) => (Ok tt, set_objectStore os st)
          | (Throw e, _) => (Throw e, st)
          end
      | None => (Ok tt, st)
      end
  end.

(** [msg.messageId === messageId ? { ...msg, synced: true, ... } : msg] *)
Definition mark_if (now : Z) (mid : string) (msg : StoredRecord) : StoredRecord :=
  if String.eqb (messageId msg) mid then mark now msg else msg.

Definition markSyncedInLocalStorage (now : Z) (mid : string) (st : Storage)
  : Result unit * Storage :=
  let stored := getLocalStorageMessages st in
  let updated := mark_if now mid <$> stored in
  (Ok tt, setItem updated st).

Definition markAsSynced (now : Z) (messageId : string) (st : Storage)
  : Result unit * Storage :=
  if useLocalStorage st then markSyncedInLocalStorage now messageId st
  else markSyncedInIndexedDB now messageId st.

Definition clearSyncedFromIndexedDB (st : Storage) : Result unit * Storage :=
  match transaction st with
  | Throw e => (Throw e, st)
  | Ok _ =>
      let visited := index_openCursor IxSynced (objectStore st) in
      (Ok tt,
       set_objectStore
         (foldl (fun os r => if synced r then delete_row r os else os) (objectStore st) visited)
         st)
  end.

Definition clearSyncedMessages (st : Storage) : Result unit * Storage :=
  if useLocalStorage st then
    let stored := getLocalStorageMessages st in
    let unsynced := filter (fun msg => synced msg = false) stored in
    (Ok tt, setItem unsynced st)
  else clearSyncedFromIndexedDB st.

(** [Math.min(...xs)] on a non-empty list. *)
Definition Math_min (x : Z) (xs : list Z) : Z := foldl Z.min x xs.

Record Stats := mkStats {
  pendingCount : nat;
  storageType : string;
  oldestMessage : option Z      (* the time value of the [Date], or [null] *)
}.

Definition getStats (st : Storage) : Result Stats :=
  match getPendingMessages st with
  | Throw e => Throw e
  | Ok pending =>
      Ok {| pendingCount := length pending;
            storageType := if useLocalStorage st then "LocalStorage" else "IndexedDB";
            oldestMessage := match timestamp <$> pending with
                             | [] => None
                             | t :: ts => Some (Math_min t ts)
                             end |}
  end.

(** What is stored in the backend the service uses. *)
Definition records (st : Storage) : list StoredRecord :=
  if useLocalStorage st then getLocalStorageMessages st else rows (objectStore st).

End Outbox.

(* ===================================================================== *)
(** ** SyncManager *)
(* ===================================================================== *)

Module Sync.

Import Outbox.

Inductive SyncEvent :=
| Online
| Offline
| SyncStart
| SyncProgress (synced total : nat)
| SyncComplete (synced failed : nat)
| SyncError (error : Error).

(** The manager, the storage service it was constructed with, and what
    its listeners have been told so far.  A listener's exception is caught
    in [notifyListeners], so a notification is only recorded. *)
Record World := mkWorld {
  isOnline : bool;
  isSyncing : bool;
  offlineStorage : Storage;
  notified : list SyncEvent
}.

(** A computation that reads and writes the world and may throw; after a
    throw the world is as the failing statement left it. *)
Definition M (A : Type) : Type := World -> Result A * World.

#[export] Instance M_ret : MRet M := fun A a w => (Ok a, w).
#[export] Instance M_bind : MBind M := fun A B f c w =>
  match c w with
  | (Ok a, w') => f a w'
  | (Throw e, w') => (Throw e, w')
  end.

Definition throw {A} (e : Error) : M A := fun w => (Throw e, w).

(** [try { c } catch (error) { h error }] *)
Definition try_catch {A} (c : M A) (h : Error -> M A) : M A := fun w =>
  match c w with
  | (Ok a, w') => (Ok a, w')
  | (Throw e, w') => h e w'
  end.

(** [try { c } finally { f }] *)
Definition try_finally {A} (c : M A) (f : M unit) : M A := fun w =>
  match c w with
  | (r, w') =>
      match f w' with
      | (Ok _, w'') => (r, w'')
      | (Throw e, w'') => (Throw e, w'')
      end
  end.

Definition set_isSyncing (b : bool) : M unit := fun w =>
  (Ok tt, {| isOnline := isOnline w; isSyncing := b;
             offlineStorage := offlineStorage w; notified := notified w |}).

Definition set_isOnline (b : bool) : M unit := fun w =>
  (Ok tt, {| isOnline := b; isSyncing := isSyncing w;
             offlineStorage := offlineStorage w; notified := notified w |}).

Definition notifyListeners (event : SyncEvent) : M unit := fun w =>
  (Ok tt, {| isOnline := isOnline w; isSyncing := isSyncing w;
             offlineStorage := offlineStorage w; notified := notified w ++ [event] |}).

(** A call of a method of [this.offlineStorage]. *)
Definition storage_call {A} (f : Storage -> Result A * Storage) : M A := fun w =>
  match f (offlineStorage w) with
  | (r, st) => (r, {| isOnline := isOnline w; isSyncing := isSyncing w;
                      offlineStorage := st; notified := notified w |})
  end.

Definition storage_read {A} (f : Storage -> Result A) : M A :=
  storage_call (fun st => (f st, st)).

(** [uploadMessage]: [remote_ok] says whether the write to the remote
    database ([set] or [push]) succeeds.  A record of another type is not
    written at all; the method only warns and returns. *)
Definition uploadMessage (remote_ok : bool) (message : StoredRecord) : M unit :=
  if String.eqb (type message) "SOS_BROADCAST" then
    if remote_ok then mret tt else throw UploadError
  else if String.eqb (type message) "CHAT_BROADCAST" then
    if remote_ok then mret tt else throw UploadError
  else mret tt.

(** The environment of one pass: for the [k]-th record of the batch,
    whether the remote write succeeds and what [Date.now()] returns when
    the record is marked. *)
Record Env := mkEnv {
  remote_ok : nat -> bool;
  clock : nat -> Z
}.

(** The body of the [for] loop for the [k]-th record. *)
Definition syncOne (env : Env) (total k : nat) (message : StoredRecord)
    (counts : nat * nat) : M (nat * nat) :=
  let '(synced, failed) := counts in
  try_catch
    (uploadMessage (remote_ok env k) message;;
     storage_call (markAsSynced (clock env k) (messageId message));;
     notifyListeners (SyncProgress (S synced) total);;
     mret (S synced, failed))
    (fun _ => mret (synced, S failed)).

Fixpoint syncLoop (env : Env) (total k : nat) (messages : list StoredRecord)
    (counts : nat * nat) : M (nat * nat) :=
  match messages with
  | [] => mret counts
  | message :: rest =>
      counts' ← syncOne env total k message counts;
      syncLoop env total (S k) rest counts'
  end.

Definition syncPendingMessages (env : Env) : M unit := fun w =>
  if negb (isOnline w) then (Ok tt, w)
  else if isSyncing w then (Ok tt, w)
  else
    (set_isSyncing true;;
     notifyListeners SyncStart;;
     try_finally
       (try_catch
          (pendingMessages ← storage_read getPendingMessages;
           if Nat.eqb (length pendingMessages) 0 then set_isSyncing false
           else
             counts ← syncLoop env (length pendingMessages) 0 pendingMessages (0%nat, 0%nat);
             storage_call clearSyncedMessages;;
             notifyListeners (SyncComplete (fst counts) (snd counts)))
          (fun error => notifyListeners (SyncError error)))
       (set_isSyncing false)) w.

(** A caller that does not [await] the promise of [syncPendingMessages]
    goes on as soon as the pass reaches its first [await].  Up to there the
    pass has checked its guards, set the flag, announced [sync_start] and
    called [getPendingMessages]; the result is [None] when a guard returned,
    and otherwise the listing the pass is waiting for. *)
Definition syncPendingMessages_begin : M (option (Result (list StoredRecord))) := fun w =>
  if negb (isOnline w) then (Ok None, w)
  else if isSyncing w then (Ok None, w)
  else
    (set_isSyncing true;;
     notifyListeners SyncStart;;
     ((fun w => (Ok (Some (getPendingMessages (offlineStorage w))), w))
        : M (option (Result (list StoredRecord))))) w.

(** The rest of the pass, from that [await] on. *)
Definition syncPendingMessages_resume (env : Env) (listing : Result (list StoredRecord))
  : M unit :=
  try_finally
    (try_catch
       (pendingMessages ← ((fun w => (listing, w)) : M (list StoredRecord));
        if Nat.eqb (length pendingMessages) 0 then set_isSyncing false
        else
          counts ← syncLoop env (length pendingMessages) 0 pendingMessages (0%nat, 0%nat);
          storage_call clearSyncedMessages;;
          notifyListeners (SyncComplete (fst counts) (snd counts)))
       (fun error => notifyListeners (SyncError error)))
    (set_isSyncing false).

(** [handleOnline]; the pass it schedules for 1000 ms later is a later call
    of [syncPendingMessages]. *)
Definition handleOnline : M unit :=
  set_isOnline true;; notifyListeners Online.

(** [checkAndSync]: [navigator_onLine] is what the browser reports.  The
    pass is started but not awaited: [checkAndSync] returns when the pass
    has reached its first [await], and the result carries the pass left in
    flight, if any. *)
Definition checkAndSync (navigator_onLine : bool)
  : M (option (Result (list StoredRecord))) :=
  set_isOnline navigator_onLine;;
  ((fun w =>
      if isOnline w && negb (isSyncing w) then
        (stats ← storage_read getStats;
         if Nat.ltb 0 (pendingCount stats) then syncPendingMessages_begin else mret None) w
      else (Ok None, w)) : M (option (Result (list StoredRecord)))).

Definition handleOffline : M unit :=
  set_isOnline false;; notifyListeners Offline.

Definition forceSync := syncPendingMessages.

(** [new SyncManager(database, offlineStorage)] *)
Definition constructor (online : bool) (st : Storage) : World :=
  {| isOnline := online; isSyncing := false; offlineStorage := st; notified := [] |}.

(** Whether [uploadMessage] returns for the [k]-th record of the batch. *)
Definition upload_ok (env : Env) (k : nat) (message : StoredRecord) : bool :=
  remote_ok env k
  || negb (String.eqb (type message) "SOS_BROADCAST"
           || String.eqb (type message) "CHAT_BROADCAST").

(** The [markAsSynced] calls a batch makes: time and id, in order. *)
Fixpoint marks_of (env : Env) (k : nat) (messages : list StoredRecord) : list (Z * string) :=
  match messages with
  | [] => []
  | message :: rest =>
      (if upload_ok env k message then [(clock env k, messageId message)] else [])
        ++ marks_of env (S k) rest
  end.

Definition apply_marks (marks : list (Z * string)) (rs : list StoredRecord)
  : list StoredRecord :=
  foldl (fun rs m => mark_if m.1 m.2 <$> rs) rs marks.

(** The world of a pass after [isSyncing = true] and the [sync_start]
    notification. *)
Definition started (w : World) : World :=
  {| isOnline := isOnline w; isSyncing := true;
     offlineStorage := offlineStorage w; notified := notified w ++ [SyncStart] |}.

(** The outcome of the loop of a pass over [pending]. *)
Definition loop_of (env : Env) (pending : list StoredRecord) (w : World)
  : Result (nat * nat) * World :=
  syncLoop env (length pending) 0 pending (0%nat, 0%nat) (started w).

(** A remote database that refuses the write of the [k]-th record only. *)
Definition fails_at (k : nat) : Env :=
  {| remote_ok := fun j => negb (Nat.eqb j k); clock := fun j => 5000 + Z.of_nat j |}.

End Sync.

(* ===================================================================== *)
(** ** The Gemini request queue (base station) *)
(* ===================================================================== *)

Module Gemini.

(** What one [fetch] of the API ends in. *)
Inductive Response :=
| FetchFails                      (* [fetch] rejects: no transport *)
| NotJson                         (* [response.json()] rejects *)
| ApiError (code : Z)             (* the body has [error], with this [error.code] *)
| Answer (parsed : option string).
    (* the body has no [error]; [parsed] is the value of [JSON.parse] on
       the text of the first candidate, [None] when reading that text or
       parsing it throws *)

Inductive Step :=
| Fetch                 (* [await fetch(GEMINI_URL, ...)] *)
| Sleep (delay : Z).    (* [await new Promise(r => setTimeout(r, delay))] *)

(** The [while (retries > 0)] loop; [attempt] counts the fetches made so
    far and selects the response of the next one. *)
Fixpoint attempts (responses : nat -> Response) (retries : nat) (delay : Z) (attempt : nat)
  : option string * list Step :=
  match retries with
  | O => (None, [])
  | S retries' =>
      match responses attempt with
      | FetchFails => (None, [Fetch])
      | NotJson => (None, [Fetch])
      | ApiError code =>
          if code =? 429 then
            let '(result, steps) := attempts responses retries' (delay * 2) (S attempt) in
            (result, Fetch :: Sleep delay :: steps)
          else (None, [Fetch])
      | Answer None => (None, [Fetch])
      | Answer (Some result) => (Some result, [Fetch])
      end
  end.

(** [sosData] is [None] for a [null]/[undefined] argument: building the
    prompt then throws before the loop is entered. *)
Definition performGeminiRequest (responses : nat -> Response) (sosData : option string)
  : Result (option string) * list Step :=
  match sosData with
  | None => (Throw TypeError, [])
  | Some _ =>
      let '(result, steps) := attempts responses 3 2000 0 in
      (Ok result, steps)
  end.

(** A queued job: the request and the promise its caller holds. *)
Record Job := mkJob {
  sosData : option string;
  promise : nat
}.

Inductive Effect :=
| Resolve (promise : nat) (value : option string)
| Reject (promise : nat)
| Request (step : Step)
| SetTimeout (delay : Z).   (* the timer that restarts [processQueue] *)

Record Queue := mkQueue {
  requestQueue : list Job;
  isProcessingQueue : bool
}.

Definition processQueue (responses : nat -> Response) (q : Queue) : Queue * list Effect :=
  if isProcessingQueue q then (q, [])
  else
    match requestQueue q with
    | [] => (q, [])
    | job :: rest =>
        let q' := {| requestQueue := rest; isProcessingQueue := true |} in
        match performGeminiRequest responses (sosData job) with
        | (Ok result, steps) =>
            (q', (Request <$> steps) ++ [Resolve (promise job) result; SetTimeout 4000])
        | (Throw _, steps) =>
            (q', (Request <$> steps) ++ [Resolve (promise job) None; SetTimeout 4000])
        end
    end.

(** The callback of the 4000 ms timer. *)
Definition timer_fires (responses : nat -> Response) (q : Queue) : Queue * list Effect :=
  processQueue responses {| requestQueue := requestQueue q; isProcessingQueue := false |}.

Definition analyzeSOSWithGemini (responses : nat -> Response) (job : Job) (q : Queue)
  : Queue * list Effect :=
  processQueue responses
    {| requestQueue := requestQueue q ++ [job]; isProcessingQueue := isProcessingQueue q |}.

Definition fetches (steps : list Step) : nat :=
  length (omap (fun s => match s with Fetch => Some tt | Sleep _ => None end) steps).

Definition sleeps (steps : list Step) : list Z :=
  omap (fun s => match s with Sleep d => Some d | Fetch => None end) steps.

(** The first [n] delays of a back-off that starts at [delay] and doubles. *)
Fixpoint backoff (delay : Z) (n : nat) : list Z :=
  match n with
  | O => []
  | S n' => delay :: backoff (delay * 2) n'
  end.

(** What the job resolves with when the fetch that ends it got [r]. *)
Definition outcome (r : Response) : option string :=
  match r with
  | Answer parsed => parsed
  | _ => None
  end.

End Gemini.

(* ===================================================================== *)
(** ** Sequences of outbox operations, and what they preserve *)
(* ===================================================================== *)

Module OutboxOps.

Import Outbox.

(** The service can reach its backend: it fell back to LocalStorage, or
    its database is open. *)
Definition ready (st : Storage) : Prop :=
  useLocalStorage st = true \/ db st = OpenDb.

(** Whether [getPendingMessages] can see the stored records at all: the
    LocalStorage list is read directly, the object store through its
    [synced] index. *)
Definition lists (st : Storage) : bool :=
  useLocalStorage st || booleanKeys (objectStore st).

Definition row_key (r : StoredRecord) : nat := default 0%nat (id r).

(** What [add] establishes for the object store: every row carries its
    generated key, rows are in key order, the generator is ahead of all of
    them, and the unique index on [messageId] holds. *)
Definition wf_store (os : ObjectStore) : Prop :=
  Forall (fun r => is_Some (id r)) (rows os)
  /\ StronglySorted lt (row_key <$> rows os)
  /\ Forall (fun r => (row_key r < keyGenerator os)%nat) (rows os)
  /\ NoDup (messageId <$> rows os).

Definition wf (st : Storage) : Prop := wf_store (objectStore st).

#[export] Instance wf_store_dec os : Decision (wf_store os).
Proof. unfold wf_store. apply _. Defined.

#[export] Instance wf_dec st : Decision (wf st).
Proof. unfold wf. apply _. Defined.

#[export] Instance ready_dec st : Decision (ready st).
Proof. unfold ready. apply _. Defined.

(** The operations of the service. *)
Inductive Op :=
| StoreMessage (now_id : Z) (random : string) (now : Z) (message : Message)
| MarkAsSynced (now : Z) (messageId : string)
| ClearSyncedMessages
| GetPendingMessages
| GetStats.

Definition exec (st : Storage) (op : Op) : Storage :=
  match op with
  | StoreMessage now_id random now message => (storeMessage now_id random now message st).2
  | MarkAsSynced now mid => (markAsSynced now mid st).2
  | ClearSyncedMessages => (clearSyncedMessages st).2
  | GetPendingMessages => st
  | GetStats => st
  end.


(** What one operation may do to one stored record: nothing, or mark it. *)
Definition rec_step (r r' : StoredRecord) : Prop :=
  r' = r \/ exists now, r' = mark now r.

(** What one operation may do to the stored list: every record stays in
    place, unchanged or marked, unless it is Synced and removed; new
    records are Pending and come last. *)
Inductive evolve1 : list StoredRecord -> list StoredRecord -> Prop :=
| ev_new news :
    Forall (fun r => synced r = false) news -> evolve1 [] news
| ev_keep r r' l l' :
    rec_step r r' -> evolve1 l l' -> evolve1 (r :: l) (r' :: l')
| ev_drop r l l' :
    synced r = true -> evolve1 l l' -> evolve1 (r :: l) l'.

Definition step_ok (st st' : Storage) : Prop :=
  evolve1 (rows (objectStore st)) (rows (objectStore st'))
  /\ evolve1 (getLocalStorageMessages st) (getLocalStorageMessages st').

(** Enqueue a batch; [calls] gives the clock reads, the random text and
    the message of each [storeMessage]. *)
Definition storeAll (calls : list (Z * string * Z * Message)) (st : Storage) : Storage :=
  foldl (fun st c => let '(now_id, random, now, message) := c in
                     (storeMessage now_id random now message st).2) st calls.

Definition newRecords (calls : list (Z * string * Z * Message)) : list StoredRecord :=
  (fun c => let '(now_id, random, now, message) := c in
            newRecord now_id random now message) <$> calls.

End OutboxOps.

(* ===================================================================== *)
(** ** Sample data *)
(* ===================================================================== *)

Module Samples.

(** Device A's SOS, relayed once by B. *)
Definition sos_from_A : Mesh.MeshData :=
  {| Mesh.type := "SOS_BROADCAST"; Mesh.payload := "{}";
     Mesh.messageId := "sos_A_1000"; Mesh.hops := 1; Mesh.timestamp := 1000;
     Mesh.senderId := "A"; Mesh.forwardedBy := Some "B" |}.

(** Device B's SOS, as B posts it. *)
Definition sos_from_B : Mesh.MeshData :=
  {| Mesh.type := "SOS_BROADCAST"; Mesh.payload := "{}";
     Mesh.messageId := "sos_B_1000"; Mesh.hops := 0; Mesh.timestamp := 1000;
     Mesh.senderId := "B"; Mesh.forwardedBy := None |}.

(** Three SOS messages handed to [storeMessage] one second apart. *)
Definition msg1 : Outbox.Message :=
  {| Outbox.m_messageId := Some "A-1000"; Outbox.m_type := "SOS_BROADCAST";
     Outbox.m_payload := "{}" |}.
Definition msg2 : Outbox.Message :=
  {| Outbox.m_messageId := Some "A-2000"; Outbox.m_type := "SOS_BROADCAST";
     Outbox.m_payload := "{}" |}.
Definition msg3 : Outbox.Message :=
  {| Outbox.m_messageId := Some "A-3000"; Outbox.m_type := "SOS_BROADCAST";
     Outbox.m_payload := "{}" |}.

Definition three_calls : list (Z * string * Z * Outbox.Message) :=
  [(1000, "0.1", 1000, msg1); (2000, "0.2", 2000, msg2); (3000, "0.3", 3000, msg3)]%string.

(** The three messages stored through IndexedDB, and through the
    LocalStorage fallback, in a browser that had nothing stored. *)
Definition idb_three : Outbox.Storage :=
  OutboxOps.storeAll three_calls (Outbox.constructor true Outbox.fresh_browser).

Definition ls_three : Outbox.Storage :=
  OutboxOps.storeAll three_calls (Outbox.constructor false Outbox.fresh_browser).

End Samples.

(* ===================================================================== *)
(** ** Runs of the mesh router *)
(* ===================================================================== *)

Module MeshRuns.

Import Mesh.



(** A message travels along a line of routers: the first receives [data];
    if it schedules a forward, the timer fires, the copy is posted and the
    next router receives it; and so on.  The result is the list of copies
    posted along the way. *)
Fixpoint relay (routers : list (Z * Z * Client * Service)) (data : MeshData)
  : list MeshData :=
  match routers with
  | [] => []
  | (now, random, client, s) :: rest =>
      match posts ((handleIncomingMessage now random client data s).2 ≫= fire) with
      | fwd :: _ => fwd :: relay rest fwd
      | [] => []
      end
  end.

(** Six devices in a line, each freshly constructed. *)
Definition line_of_six : list (Z * Z * Client * Service) :=
  (fun d => (2000, 0, quiet, constructor d)) <$> ["B"; "C"; "D"; "E"; "F"; "G"]%string.

(** Two clients that change the registry while notified: handler 1
    unregisters itself; handler 1 unregisters itself and registers
    again. *)
Definition leaves : Client :=
  fun _ h _ => if Nat.eqb h 1 then [Unregister 1%nat] else [].

Definition rejoins : Client :=
  fun _ h _ => if Nat.eqb h 1 then [Unregister 1%nat; Register 1%nat] else [].

End MeshRuns.

(* ===================================================================== *)
(** ** Runs of the sync manager *)
(* ===================================================================== *)

Module SyncRuns.

Import Sync.

(** The [sync_progress] notifications of a pass that marks [n] records out
    of [total], the first one numbered [from + 1]. *)
Definition progress_events (from n total : nat) : list SyncEvent :=
  (fun i => SyncProgress (from + S i) total) <$> seq 0 n.

(** A stored record of a type [uploadMessage] does not know, between two
    SOS records, in the LocalStorage fallback. *)
Definition msg_ping : Outbox.Message :=
  {| Outbox.m_messageId := Some "A-2500"; Outbox.m_type := "PING";
     Outbox.m_payload := "{}" |}.

Definition calls_with_ping : list (Z * string * Z * Outbox.Message) :=
  [(1000, "0.1", 1000, Samples.msg1); (2500, "0.25", 2500, msg_ping);
   (3000, "0.3", 3000, Samples.msg3)]%string.

Definition ls_with_ping : Outbox.Storage :=
  OutboxOps.storeAll calls_with_ping (Outbox.constructor false Outbox.fresh_browser).

End SyncRuns.

(* ===================================================================== *)
(** ** The app's sync listener ([App.jsx]) *)
(* ===================================================================== *)

Module AppUI.

Import Sync.

(** The React state the listener writes: [syncStatus] and [online]. *)
Record SyncStatus := mkSyncStatus {
  syncing : bool;
  pending : nat
}.

Record UI := mkUI {
  syncStatus : SyncStatus;
  online : bool
}.

(** [handleSyncEvent]; the second component says whether
    [updateStorageStats()] was called. *)
Definition handleSyncEvent (event : SyncEvent) (ui : UI) : UI * bool :=
  match event with
  | SyncStart =>
      ({| syncStatus := {| syncing := true; pending := pending (syncStatus ui) |};
          online := online ui |}, false)
  | SyncComplete _ _ =>
      ({| syncStatus := {| syncing := false; pending := 0 |}; online := online ui |}, true)
  | Online => ({| syncStatus := syncStatus ui; online := true |}, false)
  | Offline => ({| syncStatus := syncStatus ui; online := false |}, false)
  | SyncProgress _ _ | SyncError _ => (ui, false)
  end.

(** [updateStorageStats], once the promise of [getStats] has settled; a
    rejection is not handled and leaves the state as it is. *)
Definition updateStorageStats (st : Outbox.Storage) (ui : UI) : UI :=
  match Outbox.getStats st with
  | Ok stats =>
      {| syncStatus := {| syncing := syncing (syncStatus ui);
                          pending := Outbox.pendingCount stats |};
         online := online ui |}
  | Throw _ => ui
  end.

(** The listener applied to the notifications of a run, in order. *)
Definition listen (events : list SyncEvent) (ui : UI) : UI :=
  foldl (fun ui event => (handleSyncEvent event ui).1) ui events.

End AppUI.

(* ===================================================================== *)
(** ** Runs of the dispatcher *)
(* ===================================================================== *)

Module GeminiRuns.

Import Gemini.

(** What happens to the queue: a caller submits a job, or the 4000 ms timer
    fires. *)
Inductive Call :=
| Analyze (job : Job)
| TimerFires.

Definition dispatch (c : Call) (responses : nat -> Response) (q : Queue)
  : Queue * list Effect :=
  match c with
  | Analyze job => analyzeSOSWithGemini responses job q
  | TimerFires => timer_fires responses q
  end.

(** A sequence of calls, each with the responses the API gives to the
    request it may start. *)
Fixpoint drive (calls : list (Call * (nat -> Response))) (q : Queue) : Queue * list Effect :=
  match calls with
  | [] => (q, [])
  | (c, responses) :: rest =>
      let '(q1, effects1) := dispatch c responses q in
      let '(q2, effects2) := drive rest q1 in
      (q2, effects1 ++ effects2)
  end.

(** The promises settled by a run, in order. *)
Definition resolved (effects : list Effect) : list nat :=
  omap (fun e => match e with Resolve p _ => Some p | _ => None end) effects.

Definition rejected (effects : list Effect) : list nat :=
  omap (fun e => match e with Reject p => Some p | _ => None end) effects.

Definition timers (effects : list Effect) : list Z :=
  omap (fun e => match e with SetTimeout d => Some d | _ => None end) effects.

(** The promises handed out by the [Analyze] calls of a run, in order. *)
Definition submitted (calls : list (Call * (nat -> Response))) : list nat :=
  omap (fun c => match c.1 with Analyze job => Some (promise job) | TimerFires => None end)
    calls.

Definition idle : Queue := {| requestQueue := []; isProcessingQueue := false |}.

End GeminiRuns.

(* ===================================================================== *)
(** ** The base station's fallback triage ([base-station/app.js]) *)
(* ===================================================================== *)

Module Triage.

(** [hay.startsWith(needle)] *)
Fixpoint starts_with (needle hay : string) : bool :=
  match needle, hay with
  | EmptyString, _ => true
  | String _ _, EmptyString => false
  | String a needle', String b hay' => Ascii.eqb a b && starts_with needle' hay'
  end.

(** [hay.includes(needle)] *)
Fixpoint includes (needle hay : string) : bool :=
  match hay with
  | EmptyString => starts_with needle hay
  | String _ hay' => starts_with needle hay || includes needle hay'
  end.

Record Fallback := mkFallback {
  fallbackPriority : string;
  fallbackScore : Z;
  fallbackAction : string
}.

(** The branch taken when the analysis is missing; [msg] is the message in
    lower case, [(d.message || "").toLowerCase()]. *)
Definition fallback (msg : string) : Fallback :=
  if includes "fire" msg || includes "blood" msg || includes "critical" msg
     || includes "help" msg || includes "emergency" msg
  then {| fallbackPriority := "Critical"; fallbackScore := 9;
          fallbackAction := "IMMEDIATE ACTION REQUIRED (Keyword Detected)" |}
  else if includes "hurt" msg || includes "pain" msg || includes "lost" msg
  then {| fallbackPriority := "High"; fallbackScore := 7;
          fallbackAction := "Dispatch assistance" |}
  else {| fallbackPriority := "Medium"; fallbackScore := 5;
          fallbackAction := "Review manually" |}.

End Triage.

(* ===================================================================== *)
(** * Properties of the mesh router *)
(* ===================================================================== *)

Section MeshProperties.

Import Mesh MeshRuns Samples.

Implicit Types (s : Service) (m : MeshData) (now random : Z) (client : Client)
  (hs : list Handler) (arg : HandlerArg).

Lemma handle_rejected now random client m s :
  accepts now m s = false -> handleIncomingMessage now random client m s = (s, []).
Proof.
  unfold accepts, handleIncomingMessage.
  destruct (String.eqb _ _); [done|].
  destruct (bool_decide _); [done|].
  destruct (_ <=? _); [done|].
  destruct (_ <? _); [done|]. simpl. discriminate.
Qed.

Lemma handle_accepted now random client m s :
  accepts now m s = true ->
  handleIncomingMessage now random client m s =
    (set_messageHandlers (forEach client (handlerArg m) (messageHandlers s)).1
       (set_messageCache (<[messageId m := cacheEntry m]> (messageCache s)) s),
     (forEach client (handlerArg m) (messageHandlers s)).2 ++ forwardMessage random m s).
Proof.
  unfold accepts, handleIncomingMessage.
  destruct (String.eqb _ _); [done|].
  destruct (bool_decide _); [done|].
  destruct (_ <=? _); [done|].
  destruct (_ <? _); [done|]. intros _. cbn [messageHandlers set_messageCache].
  by destruct (forEach client (handlerArg m) (messageHandlers s)).
Qed.

Lemma cached_not_accepted now m s :
  is_Some (messageCache s !! messageId m) -> accepts now m s = false.
Proof.
  intros Hc. unfold accepts.
  rewrite (bool_decide_eq_true_2 _ Hc).
  destruct (negb (String.eqb _ _)); done.
Qed.

Lemma notifications_app (es1 es2 : list Effect) :
  notifications (es1 ++ es2) = notifications es1 ++ notifications es2.
Proof. unfold notifications. apply omap_app. Qed.

Lemma forwards_app (es1 es2 : list Effect) :
  forwards (es1 ++ es2) = forwards es1 ++ forwards es2.
Proof. unfold forwards. apply omap_app. Qed.

Lemma notifications_notify hs arg :
  notifications (map (fun h => Notify h arg) hs) = map (fun h => (h, arg)) hs.
Proof. induction hs as [|h hs IH]; simpl; [done|]. unfold notifications in *. simpl. by rewrite IH. Qed.

Lemma forwards_notify hs arg :
  forwards (map (fun h => Notify h arg) hs) = [].
Proof. induction hs as [|h hs IH]; simpl; done. Qed.

Lemma notifications_forwardMessage random m s :
  notifications (forwardMessage random m s) = [].
Proof. unfold forwardMessage. by destruct (_ <=? _). Qed.

Lemma forwards_forwardMessage random m s :
  forwards (forwardMessage random m s) =
    if maxHops s <=? hops m + 1 then []
    else [forwardedData m (hops m + 1) (deviceId s)].
Proof. unfold forwardMessage. by destruct (_ <=? _). Qed.

(** *** The [forEach] over the live registry *)

(** A [forEach] only calls handlers, all with the same argument, and at
    most as many as there are indices to visit. *)
Lemma forEach_from_calls client arg n k hs :
  exists called,
    (forEach_from client arg n k hs).2 = map (fun h => Notify h arg) called
    /\ (length called <= n)%nat.
Proof.
  revert k hs. induction n as [|n IH]; intros k hs; simpl.
  - by exists [].
  - destruct (hs !! k) as [h|].
    + destruct (IH (S k) (foldl act hs (client k h arg))) as (called & Hc & Hlen).
      destruct (forEach_from client arg n (S k) _) as [hs' es]. simpl in *.
      exists (h :: called). rewrite Hc. split; [done|]. simpl. lia.
    + destruct (IH (S k) hs) as (called & Hc & Hlen).
      exists called. split; [done|]. lia.
Qed.

Lemma forEach_calls client arg hs :
  exists called,
    (forEach client arg hs).2 = map (fun h => Notify h arg) called
    /\ (length called <= length hs)%nat
    /\ head called = head hs.
Proof.
  unfold forEach. destruct hs as [|h hs]; [by exists []|].
  cbn [length forEach_from lookup list_lookup].
  destruct (forEach_from_calls client arg (length hs) 1 (foldl act (h :: hs) (client 0%nat h arg)))
    as (called & Hc & Hlen).
  destruct (forEach_from client arg (length hs) 1 _) as [hs' es]. simpl in *.
  exists (h :: called). rewrite Hc. split; [done|]. split; [simpl; lia|done].
Qed.

(** When the handlers leave the registry alone, every handler is called
    once, in registration order. *)
Lemma forEach_from_untouched client arg hs1 hs2 :
  registry_untouched client arg (hs1 ++ hs2) ->
  forEach_from client arg (length hs2) (length hs1) (hs1 ++ hs2)
  = (hs1 ++ hs2, map (fun h => Notify h arg) hs2).
Proof.
  revert hs1. induction hs2 as [|h hs2 IH]; intros hs1 Hq; [done|].
  cbn [length forEach_from].
  assert ((hs1 ++ h :: hs2) !! length hs1 = Some h) as Hk
    by (rewrite lookup_app_r by lia; by rewrite Nat.sub_diag).
  rewrite Hk, (Hq _ _ Hk). cbn [foldl].
  specialize (IH (hs1 ++ [h])). rewrite <- app_assoc in IH. cbn [app] in IH.
  rewrite length_app, Nat.add_1_r in IH. by rewrite (IH Hq).
Qed.

Lemma forEach_untouched client arg hs :
  registry_untouched client arg hs ->
  forEach client arg hs = (hs, map (fun h => Notify h arg) hs).
Proof. intros Hq. exact (forEach_from_untouched client arg [] hs Hq). Qed.

Lemma quiet_untouched arg hs : registry_untouched quiet arg hs.
Proof. by intros k h _. Qed.

(** What one receive tells the handlers and schedules, whatever its guards
    decide. *)
Lemma handle_effects now random client m s :
  let r := handleIncomingMessage now random client m s in
  notifications r.2 =
    (if accepts now m s
     then notifications (forEach client (handlerArg m) (messageHandlers s)).2 else [])
  /\ forwards r.2 =
    (if accepts now m s && negb (maxHops s <=? hops m + 1)
     then [forwardedData m (hops m + 1) (deviceId s)] else []).
Proof.
  destruct (accepts now m s) eqn:Ha; simpl.
  - rewrite (handle_accepted _ _ _ _ _ Ha). simpl.
    destruct (forEach_calls client (handlerArg m) (messageHandlers s)) as (called & -> & _).
    rewrite notifications_app, forwards_app, forwards_notify,
      notifications_forwardMessage, forwards_forwardMessage, app_nil_r. simpl.
    by destruct (_ <=? _).
  - by rewrite (handle_rejected _ _ _ _ _ Ha).
Qed.

(** Whatever the handlers do, a receive changes nothing of the router but
    its cache and its registry. *)
Lemma handle_keeps_settings now random client m s :
  let s' := (handleIncomingMessage now random client m s).1 in
  deviceId s' = deviceId s /\ maxHops s' = maxHops s /\ ttl s' = ttl s
  /\ (accepts now m s = true ->
      messageCache s' = <[messageId m := cacheEntry m]> (messageCache s))
  /\ (accepts now m s = false -> s' = s).
Proof.
  destruct (accepts now m s) eqn:Ha.
  - by rewrite (handle_accepted _ _ _ _ _ Ha).
  - by rewrite (handle_rejected _ _ _ _ _ Ha).
Qed.

(** Every forward the router schedules carries a hop count below its
    [maxHops]. *)
Lemma forward_hops_bounded now random client m s fwd :
  fwd ∈ forwards (handleIncomingMessage now random client m s).2 ->
  hops fwd = hops m + 1 /\ hops fwd < maxHops s.
Proof.
  destruct (handle_effects now random client m s) as [_ ->].
  destruct (accepts now m s); simpl; [|by intros ?%elem_of_nil].
  destruct (maxHops s <=? hops m + 1) eqn:Hle; simpl; [by intros ?%elem_of_nil|].
  intros ->%list_elem_of_singleton. simpl. apply Z.leb_gt in Hle. lia.
Qed.

(** C1, as the specification states it, fails: a device that receives the
    relayed copy of its own broadcast twice drops it both times, so its
    handler never fires. *)
Lemma receive_twice_counterexample :
  ~ (forall s now1 random1 client1 now2 random2 client2 m1 m2,
       messageId m1 = messageId m2 ->
       let r1 := handleIncomingMessage now1 random1 client1 m1 s in
       let r2 := handleIncomingMessage now2 random2 client2 m2 r1.1 in
       (notifications (r1.2 ++ r2.2)).*1 = messageHandlers s
       /\ forwards r2.2 = []
       /\ r2.1 = r1.1).
Proof.
  intros H.
  specialize (H (onMessage 1%nat (constructor "A")) 2000 0 quiet 2100 0 quiet
                sos_from_A sos_from_A eq_refl).
  destruct H as [H _]. vm_compute in H. discriminate H.
Qed.

(** The registry is live while the handlers are notified.  With handlers 1
    and 2 registered: when handler 1 unregisters itself, handler 2 moves to
    the index just visited and is not called; when handler 1 unregisters
    itself and registers again, it is found a second time at index 1 and
    handler 2 is not called. *)
Lemma live_registry_examples :
  let s := onMessage 2%nat (onMessage 1%nat (constructor "A")) in
  let r1 := handleIncomingMessage 2000 50 leaves sos_from_B s in
  let r2 := handleIncomingMessage 2000 50 rejoins sos_from_B s in
  (notifications r1.2).*1 = [1%nat] /\ messageHandlers r1.1 = [2%nat]
  /\ (notifications r2.2).*1 = [1%nat; 1%nat] /\ messageHandlers r2.1 = [2%nat; 1%nat].
Proof. vm_compute. done. Qed.

(** C1 (amended).  Two receives with the same [messageId], whatever the
    handlers do to the registry while they are notified: at most one of the
    two receives does anything, so at most one forward is scheduled and the
    handlers are notified by at most one [forEach], which makes at most as
    many calls as there are registered handlers.  If the first receive
    accepts the message (the sender is another device, the id is not cached,
    [hops < maxHops], the age is at most [ttl]), the second receive fires no
    handler, schedules nothing and leaves the router as it was; the first
    notifies the handlers with the first message, beginning with the handler
    registered first, and when no handler changes the registry while
    notified every registered handler is called exactly once, in
    registration order. *)
Theorem duplicate_receive_suppressed s now1 random1 client1 now2 random2 client2 m1 m2 :
  messageId m1 = messageId m2 ->
  let r1 := handleIncomingMessage now1 random1 client1 m1 s in
  let r2 := handleIncomingMessage now2 random2 client2 m2 r1.1 in
  (r1 = (s, []) \/ r2 = (r1.1, []))
  /\ (length (forwards (r1.2 ++ r2.2)) <= 1)%nat
  /\ (length (notifications (r1.2 ++ r2.2)) <= length (messageHandlers s))%nat
  /\ (accepts now1 m1 s = true ->
      r2.2 = [] /\ r2.1 = r1.1
      /\ notifications (r1.2 ++ r2.2)
         = notifications (forEach client1 (handlerArg m1) (messageHandlers s)).2
      /\ Forall (fun p => p.2 = handlerArg m1) (notifications (r1.2 ++ r2.2))
      /\ head (notifications (r1.2 ++ r2.2)).*1 = head (messageHandlers s)
      /\ (registry_untouched client1 (handlerArg m1) (messageHandlers s) ->
          notifications (r1.2 ++ r2.2)
          = map (fun h => (h, handlerArg m1)) (messageHandlers s)
          /\ messageHandlers r1.1 = messageHandlers s)).
Proof.
  intros Hid r1 r2. subst r1 r2.
  destruct (accepts now1 m1 s) eqn:Ha1.
  - (* accepted first: the id is cached, the second receive is dropped *)
    pose proof (handle_effects now1 random1 client1 m1 s) as [Hn Hf]. simpl in Hn, Hf.
    rewrite Ha1 in Hn, Hf.
    destruct (handle_keeps_settings now1 random1 client1 m1 s) as (_ & _ & _ & Hc & _).
    specialize (Hc Ha1). cbv zeta in Hc.
    rewrite (handle_rejected now2 random2 client2 m2); last first.
    { apply cached_not_accepted. rewrite Hc, <- Hid, lookup_insert_eq. by eexists. }
    cbn [fst snd]. rewrite !app_nil_r, Hn, Hf.
    destruct (forEach_calls client1 (handlerArg m1) (messageHandlers s))
      as (called & Hcalled & Hlen & Hhead).
    rewrite Hcalled, notifications_notify.
    split; [by right|]. split; [destruct (negb _); simpl; lia|].
    split; [by rewrite length_map|]. intros _.
    split; [done|]. split; [done|]. split; [done|].
    split; [apply Forall_forall; by intros p (h & -> & _)%list_elem_of_fmap|].
    split.
    { rewrite <- Hhead. clear. by destruct called. }
    intros Hq. rewrite (handle_accepted _ _ _ _ _ Ha1).
    rewrite (forEach_untouched _ _ _ Hq) in Hcalled |- *. simpl in Hcalled.
    split; [|done].
    apply (f_equal notifications) in Hcalled. rewrite !notifications_notify in Hcalled.
    done.
  - (* dropped first: the router is unchanged, the second receive stands alone *)
    rewrite (handle_rejected _ _ _ _ _ Ha1). cbn [fst snd app].
    pose proof (handle_effects now2 random2 client2 m2 s) as [Hn Hf]. simpl in Hn, Hf.
    rewrite Hn, Hf.
    split; [by left|]. split; [destruct (_ && _); simpl; lia|]. split; [|done].
    destruct (accepts now2 m2 s); [|simpl; lia].
    destruct (forEach_calls client2 (handlerArg m2) (messageHandlers s))
      as (called & -> & Hlen & _).
    by rewrite notifications_notify, length_map.
Qed.

Lemma duplicate_receive_suppressed_witness :
  let s := onMessage 1%nat (constructor "A") in
  let r1 := handleIncomingMessage 2000 50 quiet sos_from_B s in
  let r2 := handleIncomingMessage 2100 60 quiet sos_from_B r1.1 in
  notifications (r1.2 ++ r2.2) = [(1%nat, handlerArg sos_from_B)]
  /\ r2.2 = [] /\ r2.1 = r1.1.
Proof.
  pose proof (proj2 (proj2 (proj2 (duplicate_receive_suppressed
           (onMessage 1%nat (constructor "A")) 2000 50 quiet 2100 60 quiet
           sos_from_B sos_from_B eq_refl))) eq_refl) as (H1 & H2 & _ & _ & _ & H3).
  split; [|by split].
  exact (proj1 (H3 (quiet_untouched _ _))).
Defined.

(** C2, as the specification states it, fails: a message accepted with
    [hops = maxHops - 1] is not forwarded at all. *)
Lemma last_hop_forward_counterexample :
  ~ (forall s now random client m,
       accepts now m s = true ->
       hops m = maxHops s - 1 ->
       exists fwd,
         fwd ∈ forwards (handleIncomingMessage now random client m s).2
         /\ hops fwd = maxHops s
         /\ forall s' now' random' client',
              maxHops s' = maxHops s ->
              handleIncomingMessage now' random' client' fwd s' = (s', [])).
Proof.
  intros H.
  destruct (H (onMessage 1%nat (constructor "A")) 2000 0 quiet
              (forwardedData sos_from_B 4 "C") eq_refl eq_refl) as (fwd & Hin & _).
  vm_compute in Hin. by apply elem_of_nil in Hin.
Qed.

(** C2 (amended).  A message accepted with [hops = maxHops - 1] reaches the
    handlers (the [forEach] over the registry runs: every registered handler
    once when none of them changes the registry meanwhile) but no forward is
    scheduled for it, whatever the handlers do: the router forwards only
    while [hops + 1 < maxHops], and then with [hops + 1].  A message that
    carries [maxHops] hops (or more) is rejected by every router with that
    [maxHops]: no handler fires, nothing is forwarded, nothing changes. *)
Theorem last_hop_not_forwarded s now random client m :
  accepts now m s = true ->
  hops m = maxHops s - 1 ->
  let r := handleIncomingMessage now random client m s in
  (notifications r.2 = notifications (forEach client (handlerArg m) (messageHandlers s)).2
   /\ (registry_untouched client (handlerArg m) (messageHandlers s) ->
       notifications r.2 = map (fun h => (h, handlerArg m)) (messageHandlers s)))
  /\ forwards r.2 = []
  /\ (forall now' random' client' m' fwd,
        fwd ∈ forwards (handleIncomingMessage now' random' client' m' s).2 ->
        hops fwd = hops m' + 1 /\ hops fwd < maxHops s)
  /\ (forall s' now' random' client' m',
        maxHops s' = maxHops s -> maxHops s <= hops m' ->
        handleIncomingMessage now' random' client' m' s' = (s', [])).
Proof.
  intros Ha Hh r. subst r.
  destruct (handle_effects now random client m s) as [-> ->]. rewrite Ha. simpl.
  split.
  { split; [done|]. intros Hq.
    rewrite (forEach_untouched _ _ _ Hq). cbn [snd]. apply notifications_notify. }
  split.
  { replace (maxHops s <=? hops m + 1) with true; [done|].
    symmetry. apply Z.leb_le. lia. }
  split; [intros; by eapply forward_hops_bounded|].
  intros s' now' random' client' m' Hmax Hge.
  apply handle_rejected. unfold accepts.
  replace (maxHops s' <=? hops m') with true by (symmetry; apply Z.leb_le; lia).
  simpl. by rewrite andb_false_r.
Qed.

Lemma last_hop_not_forwarded_witness :
  let s := onMessage 1%nat (constructor "A") in
  let m := forwardedData sos_from_B 4 "C" in
  notifications (handleIncomingMessage 2000 0 quiet m s).2 = [(1%nat, handlerArg m)]
  /\ forwards (handleIncomingMessage 2000 0 quiet m s).2 = [].
Proof.
  pose proof (last_hop_not_forwarded (onMessage 1%nat (constructor "A")) 2000 0 quiet
                (forwardedData sos_from_B 4 "C") eq_refl eq_refl) as H.
  exact (conj (proj2 (proj1 H) (quiet_untouched _ _)) (proj1 (proj2 H))).
Defined.

(** C6, as the specification states it, fails: [broadcastSOS] does not
    touch [messageCache]. *)
Lemma broadcast_caches_counterexample :
  ~ (forall s now_id now_ts data,
       let '(id, s', es) := broadcastSOS now_id now_ts data s in
       (exists message, posts es = [message] /\ messageId message = id
                        /\ hops message = 0 /\ timestamp message = now_ts)
       /\ is_Some (messageCache s' !! id)).
Proof.
  intros H. specialize (H (constructor "A") 1000 1000 "{}").
  simpl in H. destruct H as [_ [e He]]. by rewrite lookup_empty in He.
Qed.

(** C6 (amended).  A broadcast posts one message with hop count 0, the
    current time as timestamp, the device as sender and an id made of the
    kind, the device and the time; it returns that id and leaves the
    router, its dedup cache included, unchanged.  The sender does not
    reprocess its own echo because a receive drops every message whose
    [senderId] is the receiving device: the posted message and every
    relayed copy of it are dropped by the sender without effect. *)
Theorem broadcast_posts_and_echo_dropped kind prefix now_id now_ts data s :
  let '(id, s', es) := broadcast kind prefix now_id now_ts data s in
  s' = s
  /\ id = (prefix +:+ deviceId s +:+ "_" +:+ pretty now_id)%string
  /\ (exists message,
        es = [PostMessage message]
        /\ type message = kind /\ payload message = data
        /\ messageId message = id /\ hops message = 0
        /\ timestamp message = now_ts /\ senderId message = deviceId s
        /\ (forall now random client,
              handleIncomingMessage now random client message s' = (s', []))
        /\ (forall now random client h relay,
              handleIncomingMessage now random client (forwardedData message h relay) s'
              = (s', []))).
Proof.
  simpl. split; [done|]. split; [done|].
  eexists. split; [done|]. simpl. repeat split.
  - intros. unfold handleIncomingMessage. simpl. by rewrite String.eqb_refl.
  - intros. unfold handleIncomingMessage. simpl. by rewrite String.eqb_refl.
Qed.

Lemma broadcastSOS_is_broadcast now_id now_ts data s :
  broadcastSOS now_id now_ts data s = broadcast "SOS_BROADCAST" "sos_" now_id now_ts data s
  /\ broadcastChat now_id now_ts data s = broadcast "CHAT_BROADCAST" "chat_" now_id now_ts data s.
Proof. done. Qed.

End MeshProperties.

(* ===================================================================== *)
(** * Properties of the outbox *)
(* ===================================================================== *)

Section OutboxProperties.

Import Outbox OutboxOps Samples.

Implicit Types (st : Storage) (os : ObjectStore) (r : StoredRecord)
  (rs : list StoredRecord) (mid : string).

Lemma filter_none {A} (P : A -> Prop) `{!forall x, Decision (P x)} (l : list A) :
  Forall (fun x => ~ P x) l -> filter P l = [].
Proof.
  induction 1 as [|x l Hx _ IH]; [done|]. by rewrite filter_cons, decide_False.
Qed.

Lemma filter_filter_pending rs :
  filter (fun r => synced r = false) (filter (fun r => synced r = false) rs)
  = filter (fun r => synced r = false) rs.
Proof.
  induction rs as [|x l IH]; [done|].
  rewrite filter_cons. destruct (decide _) as [Hp|Hs]; [|done].
  rewrite filter_cons, decide_True by done. by rewrite IH.
Qed.

(** *** The [synced] index *)

(** On an engine that follows the standard the index has no entries. *)
Lemma index_entries_synced rs : index_entries false IxSynced rs = [].
Proof. induction rs as [|r rs IH]; simpl; done. Qed.

Lemma index_insert_pending r (es : list (IdbKey * StoredRecord)) :
  index_insert (KBoolean false) r es = (KBoolean false, r) :: es.
Proof. destruct es as [|[[[]| |] r'] es]; done. Qed.

Lemma index_insert_synced r rs1 rs2 :
  Forall (fun x => synced x = false) rs1 ->
  Forall (fun x => synced x = true) rs2 ->
  index_insert (KBoolean true) r
    (((fun x => (KBoolean (synced x), x)) <$> rs1)
       ++ ((fun x => (KBoolean (synced x), x)) <$> rs2))
  = ((fun x => (KBoolean (synced x), x)) <$> rs1)
      ++ (KBoolean true, r) :: ((fun x => (KBoolean (synced x), x)) <$> rs2).
Proof.
  intros H1 H2. induction H1 as [|x rs1 Hx _ IH].
  - destruct H2 as [|y rs2 Hy _]; [done|]. simpl. by rewrite Hy.
  - rewrite !fmap_cons, <- !app_comm_cons. cbn [index_insert]. rewrite Hx.
    cbn [key_ltb negb andb]. by rewrite IH.
Qed.

(** On an engine with boolean keys the index lists the Pending records
    before the Synced ones, each group in primary-key order. *)
Lemma index_entries_synced_boolean rs :
  index_entries true IxSynced rs
  = (fun x => (KBoolean (synced x), x))
      <$> (filter (fun x => synced x = false) rs ++ filter (fun x => synced x = true) rs).
Proof.
  induction rs as [|r rs IH]; [done|].
  cbn [index_entries index_key key_path to_key]. rewrite IH, !filter_cons.
  destruct (synced r) eqn:Hs.
  - rewrite decide_False, decide_True by done.
    rewrite !fmap_app, fmap_cons, Hs.
    apply index_insert_synced; apply Forall_forall; by intros x [? _]%list_elem_of_filter.
  - rewrite decide_True, decide_False by done.
    rewrite index_insert_pending. by rewrite <- app_comm_cons, fmap_cons, Hs.
Qed.

Lemma index_openCursor_synced os :
  index_openCursor IxSynced os
  = if booleanKeys os
    then filter (fun x => synced x = false) (rows os)
           ++ filter (fun x => synced x = true) (rows os)
    else [].
Proof.
  unfold index_openCursor. destruct (booleanKeys os).
  - rewrite index_entries_synced_boolean, <- list_fmap_compose.
    apply list_fmap_id.
  - by rewrite index_entries_synced.
Qed.

Lemma getPendingMessages_spec st :
  getPendingMessages st
  = if useLocalStorage st then Ok (filter (fun r => synced r = false) (records st))
    else match transaction st with
         | Ok _ => Ok (if lists st then filter (fun r => synced r = false) (records st)
                       else [])
         | Throw e => Throw e
         end.
Proof.
  unfold getPendingMessages, getIndexedDBMessages, records, lists.
  destruct (useLocalStorage st); [done|].
  destruct (transaction st); [|done]. rewrite index_openCursor_synced. simpl.
  destruct (booleanKeys (objectStore st)); [|done].
  rewrite filter_app, filter_filter_pending.
  rewrite (filter_none (fun r => synced r = false)
             (filter (fun x => synced x = true) (rows (objectStore st)))).
  - by rewrite app_nil_r.
  - apply Forall_forall. intros x [Hs _]%list_elem_of_filter. by rewrite Hs.
Qed.

Lemma getPendingMessages_ok st pending :
  getPendingMessages st = Ok pending ->
  ready st
  /\ pending = if lists st then filter (fun r => synced r = false) (records st) else [].
Proof.
  rewrite getPendingMessages_spec. unfold ready, lists, transaction.
  destruct (useLocalStorage st); [intros [= <-]; by split; [left|]|].
  destruct (db st); [done| |done]. intros [= <-]. by split; [right|].
Qed.

Lemma getPendingMessages_ready st :
  ready st ->
  getPendingMessages st
  = Ok (if lists st then filter (fun r => synced r = false) (records st) else []).
Proof.
  rewrite getPendingMessages_spec. unfold ready, lists, transaction.
  destruct (useLocalStorage st); [done|]. intros [?|Hdb]; [done|]. by rewrite Hdb.
Qed.

(** *** The [messageId] index *)

Lemma index_insert_perm k r (es : list (IdbKey * StoredRecord)) :
  index_insert k r es ≡ₚ (k, r) :: es.
Proof.
  induction es as [|[k' r'] es IH]; simpl; [done|].
  destruct (key_ltb k' k); [|done].
  rewrite IH. apply Permutation_swap.
Qed.

Lemma index_entries_messageId_perm bk rs :
  index_entries bk IxMessageId rs ≡ₚ (fun r => (KString (messageId r), r)) <$> rs.
Proof.
  induction rs as [|r rs IH]; simpl; [done|].
  rewrite index_insert_perm. by rewrite IH.
Qed.

Lemma filter_messageId_entries mid rs :
  filter (fun e : IdbKey * StoredRecord => key_eqb e.1 (KString mid) = true)
    ((fun r => (KString (messageId r), r)) <$> rs)
  = (fun r => (KString (messageId r), r))
      <$> filter (fun r => String.eqb (messageId r) mid = true) rs.
Proof.
  induction rs as [|r rs IH]; [done|].
  rewrite fmap_cons, !filter_cons, IH. cbn [fst key_eqb].
  destruct (decide (String.eqb (messageId r) mid = true)); done.
Qed.

Lemma index_get_absent mid os :
  filter (fun r => String.eqb (messageId r) mid = true) (rows os) = [] ->
  index_get IxMessageId (VString mid) os = None.
Proof.
  intros Hf. unfold index_get. simpl.
  pose proof (index_entries_messageId_perm (booleanKeys os) (rows os)) as Hp.
  apply (filter_Permutation (fun e : IdbKey * StoredRecord => key_eqb e.1 (KString mid) = true)) in Hp.
  rewrite filter_messageId_entries, Hf in Hp. simpl in Hp.
  apply Permutation_nil_r in Hp. by rewrite Hp.
Qed.

Lemma index_get_unique mid os r :
  filter (fun r => String.eqb (messageId r) mid = true) (rows os) = [r] ->
  index_get IxMessageId (VString mid) os = Some r.
Proof.
  intros Hf. unfold index_get. simpl.
  pose proof (index_entries_messageId_perm (booleanKeys os) (rows os)) as Hp.
  apply (filter_Permutation (fun e : IdbKey * StoredRecord => key_eqb e.1 (KString mid) = true)) in Hp.
  rewrite filter_messageId_entries, Hf in Hp. simpl in Hp.
  apply Permutation_singleton_r in Hp. by rewrite Hp.
Qed.

(** *** Marking, backend by backend *)

Lemma mark_if_fields now mid r :
  id (mark_if now mid r) = id r
  /\ messageId (mark_if now mid r) = messageId r
  /\ row_key (mark_if now mid r) = row_key r.
Proof. unfold mark_if, row_key. by destruct (String.eqb _ _). Qed.

Lemma mark_if_other now mid rs :
  Forall (fun r => messageId r <> mid) rs -> mark_if now mid <$> rs = rs.
Proof.
  induction 1 as [|r rs Hr _ IH]; [done|].
  rewrite fmap_cons, IH. unfold mark_if.
  by apply String.eqb_neq in Hr as ->.
Qed.

Lemma filter_absent mid rs :
  filter (fun r => String.eqb (messageId r) mid = true) rs = [] <->
  Forall (fun r => messageId r <> mid) rs.
Proof.
  induction rs as [|r rs IH]; [by split; [constructor|]|].
  rewrite filter_cons. destruct (decide _) as [He|Hne].
  - split; [done|]. intros H. apply Forall_cons in H as [H _].
    by apply String.eqb_eq in He.
  - rewrite IH. rewrite Forall_cons. split; [|tauto].
    intros H. split; [|done]. intros Hm. apply Hne. rewrite Hm. apply String.eqb_refl.
Qed.

Lemma filter_unique_index mid rs :
  NoDup (messageId <$> rs) ->
  filter (fun r => String.eqb (messageId r) mid = true) rs = [] \/
  exists r, r ∈ rs /\ messageId r = mid
    /\ filter (fun r => String.eqb (messageId r) mid = true) rs = [r].
Proof.
  induction rs as [|x rs IH]; [by left|].
  rewrite fmap_cons, NoDup_cons. intros [Hx Hnd].
  rewrite filter_cons. destruct (decide _) as [He|Hne].
  - right. exists x. apply String.eqb_eq in He.
    split; [apply list_elem_of_here|]. split; [done|]. f_equal.
    apply filter_absent, Forall_forall. intros y Hy Hmid. apply Hx.
    rewrite He, <- Hmid. by apply list_elem_of_fmap_2.
  - destruct (IH Hnd) as [Hnil|(r & Hin & Hmid & Hf)]; [by left|].
    right. exists r. split; [by apply list_elem_of_further|done].
Qed.

Lemma put_row_mark now rs r :
  Forall (fun r => is_Some (id r)) rs ->
  StronglySorted lt (row_key <$> rs) ->
  NoDup (messageId <$> rs) ->
  r ∈ rs ->
  put_row (mark now r) rs = mark_if now (messageId r) <$> rs.
Proof.
  induction rs as [|x rs IH]; [by intros _ _ _ ?%elem_of_nil|].
  rewrite !fmap_cons. intros Hid Hs Hnd Hin.
  apply Forall_cons in Hid as [[k Hk] Hid].
  apply StronglySorted_inv in Hs as [Hs Hlt].
  apply NoDup_cons in Hnd as [Hx Hnd].
  apply elem_of_cons in Hin as [->|Hin]; simpl.
  - unfold same_id. simpl. rewrite Hk, Nat.eqb_refl.
    unfold mark_if at 1. rewrite String.eqb_refl. f_equal.
    symmetry. apply mark_if_other, Forall_forall. intros y Hy Hmid.
    apply Hx. rewrite <- Hmid. by apply list_elem_of_fmap_2.
  - assert (row_key x < row_key r)%nat as Hxr.
    { rewrite Forall_forall in Hlt. apply Hlt. by apply list_elem_of_fmap_2. }
    rewrite Forall_forall in Hid. destruct (Hid r Hin) as [k' Hk'].
    unfold row_key in Hxr. rewrite Hk, Hk' in Hxr. simpl in Hxr.
    unfold same_id, id_ltb. simpl. rewrite Hk, Hk'.
    destruct (Nat.eqb_spec k' k) as [->|_]; [lia|].
    destruct (Nat.ltb_spec k' k) as [?|_]; [lia|].
    rewrite IH by (try done; by apply Forall_forall).
    f_equal. unfold mark_if.
    destruct (String.eqb_spec (messageId x) (messageId r)) as [He|_]; [|done].
    exfalso. apply Hx. rewrite He. by apply list_elem_of_fmap_2.
Qed.

Lemma put_mark_ok now os r :
  wf_store os -> r ∈ rows os ->
  put (mark now r) os
  = (Ok tt, set_rows (mark_if now (messageId r) <$> rows os) os).
Proof.
  intros (Hid & Hs & _ & Hnd) Hin. unfold put.
  rewrite put_row_mark by done.
  replace (violates_unique _ _ _) with false; [done|].
  symmetry. unfold violates_unique. simpl. rewrite !orb_false_r.
  apply not_true_is_false. intros (y & Hy & He)%existsb_exists.
  apply list_elem_of_In, list_elem_of_filter in Hy as [Hsame Hy].
  apply String.eqb_eq in He.
  assert (y = r) as ->.
  { apply list_elem_of_lookup in Hy as [i Hi], Hin as [j Hj].
    assert (i = j) as ->; [|congruence].
    eapply NoDup_lookup; [exact Hnd| |].
    - by rewrite list_lookup_fmap, Hi.
    - rewrite list_lookup_fmap, Hj. simpl. by rewrite He. }
  rewrite Forall_forall in Hid. destruct (Hid r Hin) as [k Hk].
  unfold same_id in Hsame. simpl in Hsame. by rewrite Hk, Nat.eqb_refl in Hsame.
Qed.

Lemma set_objectStore_same st :
  set_objectStore (set_rows (rows (objectStore st)) (objectStore st)) st = st.
Proof. by destruct st as [? ? [? ? ?] ?]. Qed.

Lemma markSyncedInIndexedDB_open now mid st :
  db st = OpenDb -> wf st ->
  markSyncedInIndexedDB now mid st
  = (Ok tt, set_objectStore
              (set_rows (mark_if now mid <$> rows (objectStore st)) (objectStore st)) st).
Proof.
  intros Hdb Hwf. unfold markSyncedInIndexedDB, transaction. rewrite Hdb.
  destruct (filter_unique_index mid (rows (objectStore st)))
    as [Hnil|(r & Hin & Hmid & Hf)]; [apply Hwf| |].
  - rewrite (index_get_absent _ _ Hnil).
    apply filter_absent in Hnil. rewrite (mark_if_other _ _ _ Hnil).
    by rewrite set_objectStore_same.
  - rewrite (index_get_unique _ _ _ Hf), (put_mark_ok _ _ _ Hwf Hin). by rewrite Hmid.
Qed.

Lemma wf_store_mark now mid os :
  wf_store os ->
  wf_store (set_rows (mark_if now mid <$> rows os) os).
Proof.
  intros (Hid & Hs & Hk & Hnd). unfold wf_store. simpl.
  rewrite <- !list_fmap_compose.
  rewrite (list_fmap_ext (row_key ∘ mark_if now mid) row_key (rows os)) by
    (intros; apply mark_if_fields).
  rewrite (list_fmap_ext (messageId ∘ mark_if now mid) messageId (rows os)) by
    (intros; apply mark_if_fields).
  repeat split; try done.
  - rewrite Forall_fmap. eapply Forall_impl; [exact Hid|].
    intros r Hr. simpl. by destruct (mark_if_fields now mid r) as (-> & _).
  - rewrite Forall_fmap. eapply Forall_impl; [exact Hk|].
    intros r Hr. simpl. by destruct (mark_if_fields now mid r) as (_ & _ & ->).
Qed.

(** Marking in either backend: the call succeeds, and the stored list
    becomes its image under [mark_if]. *)
Lemma evolve1_mark now mid rs : evolve1 rs (mark_if now mid <$> rs).
Proof.
  induction rs as [|x l IH]; [by constructor|].
  rewrite fmap_cons. apply ev_keep; [|done].
  unfold rec_step, mark_if. destruct (String.eqb _ _); eauto.
Qed.

Lemma evolve1_refl rs : evolve1 rs rs.
Proof. induction rs as [|x l IH]; [by constructor|]. apply ev_keep; [by left|done]. Qed.

Lemma markAsSynced_spec now mid st :
  ready st -> wf st ->
  let r := markAsSynced now mid st in
  r.1 = Ok tt
  /\ records r.2 = mark_if now mid <$> records st
  /\ useLocalStorage r.2 = useLocalStorage st
  /\ db r.2 = db st
  /\ wf r.2
  /\ step_ok st r.2
  /\ booleanKeys (objectStore r.2) = booleanKeys (objectStore st).
Proof.
  intros Hready Hwf. unfold markAsSynced, records, step_ok.
  destruct (useLocalStorage st) eqn:Hls.
  - simpl. rewrite Hls. split_and!; try done.
    + apply evolve1_refl.
    + apply evolve1_mark.
  - destruct Hready as [?|Hdb]; [congruence|].
    rewrite (markSyncedInIndexedDB_open _ _ _ Hdb Hwf). simpl. rewrite Hls.
    split_and!; try done.
    + by apply wf_store_mark.
    + apply evolve1_mark.
    + apply evolve1_refl.
Qed.

(** *** Storing *)

Lemma evolve1_app_new rs news :
  Forall (fun r => synced r = false) news -> evolve1 rs (rs ++ news).
Proof.
  intros Hn. induction rs as [|x l IH]; [by constructor|].
  simpl. apply ev_keep; [by left|done].
Qed.

Lemma violates_unique_messageId bk r rs :
  violates_unique bk r rs = false -> messageId r ∉ messageId <$> rs.
Proof.
  unfold violates_unique. simpl. rewrite !orb_false_r.
  intros Hv (y & He & Hy)%list_elem_of_fmap.
  apply not_true_iff_false in Hv. apply Hv.
  apply existsb_exists. exists y. split; [by apply list_elem_of_In|].
  rewrite He. apply String.eqb_refl.
Qed.

Lemma wf_store_add r os :
  wf_store os -> wf_store (add r os).2.
Proof.
  intros (Hid & Hs & Hk & Hnd). unfold add.
  destruct (violates_unique (booleanKeys os) r (rows os)) eqn:Hv; [done|].
  unfold wf_store. simpl. rewrite !fmap_app. simpl. split_and!.
  - apply Forall_app. split; [done|]. by repeat constructor.
  - apply StronglySorted_app_2; [|done|by repeat constructor].
    intros x y (x0 & -> & Hx0)%list_elem_of_fmap ->%list_elem_of_singleton.
    rewrite Forall_forall in Hk. by apply Hk.
  - apply Forall_app. split.
    + eapply Forall_impl; [exact Hk|]. simpl. lia.
    + apply Forall_singleton. unfold row_key. simpl. lia.
  - apply NoDup_app. split_and!; [done| |by apply NoDup_singleton].
    intros x Hx ->%list_elem_of_singleton.
    by apply (violates_unique_messageId _ _ _ Hv).
Qed.

(** Storing: nothing happens (the promise is rejected), or one Pending
    record is appended to the backend in use. *)
Lemma storeMessage_spec now_id random now message st :
  wf st ->
  let r := storeMessage now_id random now message st in
  useLocalStorage r.2 = useLocalStorage st
  /\ db r.2 = db st
  /\ wf r.2
  /\ step_ok st r.2
  /\ ((is_ok r.1 = false /\ r.2 = st)
      \/ (is_ok r.1 = true /\ exists k,
            records r.2 = records st ++
              [if useLocalStorage st then newRecord now_id random now message
               else set_id k (newRecord now_id random now message)])).
Proof.
  intros Hwf. unfold storeMessage, records, step_ok.
  destruct (useLocalStorage st) eqn:Hls.
  - simpl. rewrite Hls. split_and!; try done.
    + apply evolve1_refl.
    + apply evolve1_app_new. by repeat constructor.
    + right. split; [done|]. by exists 0%nat.
  - unfold storeInIndexedDB. destruct (transaction st) eqn:Ht.
    2:{ simpl. split_and!; try done; try apply evolve1_refl. by left. }
    pose proof (wf_store_add (newRecord now_id random now message) _ Hwf) as Hwf'.
    unfold add in *.
    destruct (violates_unique _ _ _) eqn:Hv; simpl in *.
    { split_and!; try done; try apply evolve1_refl. by left. }
    rewrite Hls. split_and!; try done.
    + apply evolve1_app_new. by repeat constructor.
    + apply evolve1_refl.
    + right. split; [done|]. by eexists.
Qed.

(** *** Compaction *)

Lemma evolve1_filter_pending rs :
  evolve1 rs (filter (fun r => synced r = false) rs).
Proof.
  induction rs as [|x l IH]; [by constructor|].
  rewrite filter_cons. destruct (decide _) as [Hp|Hs].
  - apply ev_keep; [by left|done].
  - apply ev_drop; [|done]. by destruct (synced x).
Qed.

Lemma clear_fold_pending os rs :
  Forall (fun r => synced r = false) rs ->
  foldl (fun os r => if synced r then delete_row r os else os) os rs = os.
Proof. induction 1 as [|r rs Hr _ IH]; [done|]. simpl. by rewrite Hr. Qed.

Lemma set_rows_same os : set_rows (rows os) os = os.
Proof. by destruct os. Qed.

Lemma filter_all {A} (P : A -> Prop) `{!forall x, Decision (P x)} (l : list A) :
  Forall P l -> filter P l = l.
Proof.
  induction 1 as [|x l Hx _ IH]; [done|]. by rewrite filter_cons, decide_True, IH.
Qed.

Lemma clear_fold_synced os ds :
  Forall (fun r => synced r = true) ds ->
  foldl (fun os r => if synced r then delete_row r os else os) os ds
  = set_rows (filter (fun x => forallb (fun d => negb (same_id d x)) ds = true) (rows os)) os.
Proof.
  intros Hds. revert os. induction Hds as [|d ds Hd _ IH]; intros os.
  - simpl. rewrite filter_all by (by apply Forall_forall). by rewrite set_rows_same.
  - simpl. rewrite Hd, IH. unfold delete_row, set_rows. simpl. f_equal.
    rewrite list_filter_filter. apply list_filter_iff. intros x.
    rewrite andb_true_iff, negb_true_iff. tauto.
Qed.

Lemma wf_same_id os x y :
  wf_store os -> x ∈ rows os -> y ∈ rows os ->
  same_id x y = true <-> x = y.
Proof.
  intros (Hid & Hs & _ & _) Hx Hy.
  rewrite Forall_forall in Hid.
  destruct (Hid x Hx) as [kx Hkx], (Hid y Hy) as [ky Hky].
  unfold same_id. rewrite Hkx, Hky. rewrite Nat.eqb_eq. split; [|by intros ->; congruence].
  intros ->.
  apply list_elem_of_lookup in Hx as [i Hi], Hy as [j Hj].
  assert (i = j) as ->; [|congruence].
  assert (forall a b ka kb, rows os !! a = Some ka -> rows os !! b = Some kb ->
                            (a < b)%nat -> (row_key ka < row_key kb)%nat) as Hmono.
  { clear -Hs. induction (rows os) as [|r l IH]; [done|].
    rewrite fmap_cons in Hs. apply StronglySorted_inv in Hs as [Hs Hall].
    intros [|a] [|b] ka kb Ha Hb Hab; simplify_eq/=; try lia.
    - rewrite Forall_forall in Hall. apply Hall.
      apply list_elem_of_fmap_2. by eapply list_elem_of_lookup_2.
    - eapply (IH Hs a b); [done..|lia]. }
  destruct (Nat.lt_total i j) as [Hlt|[->|Hlt]]; [|done|].
  - pose proof (Hmono _ _ _ _ Hi Hj Hlt) as Hkeys. unfold row_key in Hkeys.
    rewrite Hkx, Hky in Hkeys. simpl in Hkeys. lia.
  - pose proof (Hmono _ _ _ _ Hj Hi Hlt) as Hkeys. unfold row_key in Hkeys.
    rewrite Hkx, Hky in Hkeys. simpl in Hkeys. lia.
Qed.

Lemma filter_ext_elem {A} (P Q : A -> Prop)
    `{!forall x, Decision (P x), !forall x, Decision (Q x)} (l : list A) :
  (forall x, x ∈ l -> P x <-> Q x) -> filter P l = filter Q l.
Proof.
  induction l as [|x l IH]; intros Hext; [done|].
  rewrite !filter_cons, IH by (intros y Hy; apply Hext; by apply list_elem_of_further).
  pose proof (Hext x (list_elem_of_here _ _)) as Hx.
  destruct (decide (P x)) as [HP|HP], (decide (Q x)) as [HQ|HQ]; try done; tauto.
Qed.

(** On an engine with boolean keys, the cursor of [clearSyncedFromIndexedDB]
    deletes the Synced rows and no other. *)
Lemma clear_fold_rows os :
  wf_store os -> booleanKeys os = true ->
  foldl (fun os r => if synced r then delete_row r os else os) os
    (index_openCursor IxSynced os)
  = set_rows (filter (fun r => synced r = false) (rows os)) os.
Proof.
  intros Hwf Hbk. rewrite index_openCursor_synced, Hbk, foldl_app.
  assert (Forall (fun r => synced r = false)
            (filter (fun x => synced x = false) (rows os))) as Hp.
  { apply Forall_forall. intros x Hx. by apply list_elem_of_filter in Hx as [? _]. }
  assert (Forall (fun r => synced r = true)
            (filter (fun x => synced x = true) (rows os))) as Hs.
  { apply Forall_forall. intros x Hx. by apply list_elem_of_filter in Hx as [? _]. }
  rewrite (clear_fold_pending _ _ Hp), (clear_fold_synced _ _ Hs).
  f_equal. apply filter_ext_elem. intros x Hx. rewrite forallb_forall. split.
  - intros Hall. destruct (synced x) eqn:Hsx; [|done].
    specialize (Hall x). rewrite <- list_elem_of_In, list_elem_of_filter in Hall.
    specialize (Hall (conj Hsx Hx)).
    by rewrite (proj2 (wf_same_id os x x Hwf Hx Hx) eq_refl) in Hall.
  - intros Hpx d [Hd Hin]%list_elem_of_In%list_elem_of_filter.
    apply negb_true_iff, not_true_is_false.
    intros ->%(wf_same_id os d x Hwf Hin Hx). congruence.
Qed.

Lemma wf_store_filter (P : StoredRecord -> Prop) `{!forall x, Decision (P x)} os :
  wf_store os -> wf_store (set_rows (filter P (rows os)) os).
Proof.
  intros (Hid & Hs & Hk & Hnd). unfold wf_store. simpl.
  revert Hid Hs Hk Hnd. generalize (rows os). intros l.
  induction l as [|r l IH]; intros Hid Hs Hk Hnd; [done|].
  rewrite fmap_cons in Hs. rewrite fmap_cons in Hnd.
  apply Forall_cons in Hid as [Hr Hid]. apply StronglySorted_inv in Hs as [Hs Hall].
  apply Forall_cons in Hk as [Hkr Hk]. apply NoDup_cons in Hnd as [Hnr Hnd].
  destruct (IH Hid Hs Hk Hnd) as (IH1 & IH2 & IH3 & IH4).
  rewrite filter_cons. destruct (decide (P r)); [|done].
  rewrite !fmap_cons. split_and!.
  - by constructor.
  - constructor; [done|]. rewrite Forall_forall in Hall |- *.
    intros k (y & -> & [_ Hy]%list_elem_of_filter)%list_elem_of_fmap.
    apply Hall. by apply list_elem_of_fmap_2.
  - by constructor.
  - apply NoDup_cons. split; [|done].
    intros (y & He & [_ Hy]%list_elem_of_filter)%list_elem_of_fmap.
    apply Hnr. rewrite He. by apply list_elem_of_fmap_2.
Qed.

Lemma clearSyncedMessages_spec st :
  wf st ->
  let r := clearSyncedMessages st in
  useLocalStorage r.2 = useLocalStorage st
  /\ db r.2 = db st
  /\ booleanKeys (objectStore r.2) = booleanKeys (objectStore st)
  /\ wf r.2
  /\ step_ok st r.2
  /\ (ready st ->
      r.1 = Ok tt
      /\ records r.2 =
           if lists st then filter (fun r => synced r = false) (records st)
           else records st)
  /\ (~ ready st -> r.2 = st).
Proof.
  intros Hwf. unfold clearSyncedMessages, records, step_ok, lists.
  destruct (useLocalStorage st) eqn:Hls.
  - simpl. rewrite Hls. split_and!; try done.
    + apply evolve1_refl.
    + apply evolve1_filter_pending.
    + intros Hn. destruct Hn. by left.
  - unfold clearSyncedFromIndexedDB, ready.
    destruct (transaction st) eqn:Ht; simpl.
    2:{ rewrite Hls. split_and!; try done; try apply evolve1_refl.
        intros [?|Hdb]; [done|]. unfold transaction in Ht. by rewrite Hdb in Ht. }
    assert (db st = OpenDb) as Hdb by (unfold transaction in Ht; by destruct (db st)).
    destruct (booleanKeys (objectStore st)) eqn:Hbk.
    + rewrite (clear_fold_rows _ Hwf Hbk). simpl. rewrite Hls.
      split_and!; try done.
      * by apply wf_store_filter.
      * apply evolve1_filter_pending.
      * apply evolve1_refl.
      * intros Hn. destruct Hn. by right.
    + rewrite index_openCursor_synced, Hbk. simpl. rewrite Hls.
      split_and!; try done; try apply evolve1_refl.
      intros Hn. destruct Hn. by right.
Qed.

(** *** What a step means for a single record *)

Lemma rec_step_forward r r' :
  rec_step r r' ->
  (synced r = true -> synced r' = true)
  /\ messageId r' = messageId r /\ type r' = type r /\ payload r' = payload r
  /\ timestamp r' = timestamp r /\ retryCount r' = retryCount r /\ id r' = id r.
Proof. intros [->|[now ->]]; done. Qed.


(** *** Marking twice (C7) *)

Lemma mark_if_twice now1 now2 mid rs :
  mark_if now2 mid <$> (mark_if now1 mid <$> rs) = mark_if now2 mid <$> rs.
Proof.
  rewrite <- list_fmap_compose. apply list_fmap_ext. intros _ r _. simpl.
  unfold mark_if. destruct (String.eqb (messageId r) mid) eqn:He; simpl; by rewrite He.
Qed.

Lemma filter_mark_if now mid rs :
  filter (fun r => String.eqb (messageId r) mid = true) (mark_if now mid <$> rs)
  = mark now <$> filter (fun r => String.eqb (messageId r) mid = true) rs.
Proof.
  induction rs as [|x l IH]; [done|].
  rewrite fmap_cons, !filter_cons, IH.
  destruct (mark_if_fields now mid x) as (_ & -> & _).
  destruct (decide _) as [He|Hne]; [|done].
  rewrite fmap_cons. unfold mark_if. by rewrite He.
Qed.

(** C7.  On a service that can reach its backend, [markAsSynced] called
    twice for the same id completes both times; the store then is what a
    single call (at the second time) leaves, so nothing is duplicated or
    lost; a record that was the only one with that id is the only one after
    the two calls, and it is Synced; for an id that is not stored both calls
    complete and the stored records are unchanged. *)
Theorem markAsSynced_idempotent now1 now2 mid st :
  ready st -> wf st ->
  let r1 := markAsSynced now1 mid st in
  let r2 := markAsSynced now2 mid r1.2 in
  r1.1 = Ok tt /\ r2.1 = Ok tt
  /\ records r2.2 = records (markAsSynced now2 mid st).2
  /\ length (records r2.2) = length (records st)
  /\ (forall r, filter (fun r => String.eqb (messageId r) mid = true) (records st) = [r] ->
        filter (fun r => String.eqb (messageId r) mid = true) (records r2.2) = [mark now2 r]
        /\ synced (mark now2 r) = true)
  /\ (filter (fun r => String.eqb (messageId r) mid = true) (records st) = [] ->
        records r1.2 = records st /\ records r2.2 = records st).
Proof.
  intros Hready Hwf r1 r2.
  destruct (markAsSynced_spec now1 mid st Hready Hwf)
    as (Hok1 & Hrec1 & Hls1 & Hdb1 & Hwf1 & _).
  fold r1 in Hok1, Hrec1, Hls1, Hdb1, Hwf1.
  assert (ready r1.2) as Hready1 by (unfold ready; by rewrite Hls1, Hdb1).
  destruct (markAsSynced_spec now2 mid r1.2 Hready1 Hwf1) as (Hok2 & Hrec2 & _).
  fold r2 in Hok2, Hrec2.
  destruct (markAsSynced_spec now2 mid st Hready Hwf) as (_ & Hrec & _).
  rewrite Hrec2, Hrec1, mark_if_twice.
  split_and!; try done.
  - by rewrite length_fmap.
  - intros r Hf. by rewrite filter_mark_if, Hf.
  - intros Hf%filter_absent. by rewrite !(mark_if_other _ _ _ Hf).
Qed.

Lemma wf_fresh idb_ok : wf (constructor idb_ok fresh_browser).
Proof. unfold wf, wf_store. simpl. split_and!; constructor. Qed.

Lemma storeAll_wf calls st : wf st -> wf (storeAll calls st).
Proof.
  revert st. induction calls as [|[[[now_id random] now] message] calls IH]; [done|].
  intros st Hwf. apply IH. by apply storeMessage_spec.
Qed.

Lemma markAsSynced_idempotent_witness :
  let r1 := markAsSynced 5000 "A-2000" idb_three in
  let r2 := markAsSynced 6000 "A-2000" r1.2 in
  r1.1 = Ok tt /\ r2.1 = Ok tt
  /\ filter (fun r => String.eqb (messageId r) "A-2000" = true) (records r2.2)
     = [mark 6000 (set_id 2 (newRecord 2000 "0.2" 2000 msg2))].
Proof.
  pose proof (markAsSynced_idempotent 5000 6000 "A-2000" idb_three
                (or_intror eq_refl) (storeAll_wf three_calls _ (wf_fresh true)))
    as (H1 & H2 & _ & _ & H & _).
  split; [exact H1|]. split; [exact H2|].
  exact (proj1 (H (set_id 2 (newRecord 2000 "0.2" 2000 msg2)) eq_refl)).
Defined.

(** *** Sequences of operations (C8) *)

Lemma markAsSynced_not_ready now mid st :
  ~ ready st -> (markAsSynced now mid st).2 = st.
Proof.
  unfold ready, markAsSynced, markSyncedInIndexedDB, transaction. intros Hn.
  destruct (useLocalStorage st); [by destruct Hn; left|].
  destruct (db st); try done. by destruct Hn; right.
Qed.






(** *** Statistics (C10) *)

Lemma Math_min_spec x xs :
  Math_min x xs ∈ x :: xs /\ Forall (fun y => Math_min x xs <= y) (x :: xs).
Proof.
  unfold Math_min. revert x. induction xs as [|y ys IH]; intros x; simpl.
  - split; [apply list_elem_of_here|]. constructor; [lia|constructor].
  - destruct (IH (Z.min x y)) as [Hin Hall]. split.
    + apply elem_of_cons in Hin as [Hm|Hin].
      * rewrite Hm. destruct (Z.min_spec x y) as [[_ ->]|[_ ->]].
        -- apply list_elem_of_here.
        -- apply list_elem_of_further, list_elem_of_here.
      * by do 2 apply list_elem_of_further.
    + apply Forall_cons in Hall as [Hm Hall].
      constructor; [lia|]. constructor; [lia|done].
Qed.

(** C10.  [getStats] answers exactly when [getPendingMessages] does (and
    throws what it throws); its [pendingCount] is the number of records that
    listing returns, and its [oldestMessage] is [null] when the listing is
    empty and otherwise the least timestamp in it. *)
Theorem getStats_matches_pending st :
  match getPendingMessages st, getStats st with
  | Ok pending, Ok stats =>
      pendingCount stats = length pending
      /\ match pending with
         | [] => oldestMessage stats = None
         | _ :: _ =>
             exists t, oldestMessage stats = Some t
                       /\ t ∈ timestamp <$> pending
                       /\ Forall (fun t' => t <= t') (timestamp <$> pending)
         end
  | Throw e, Throw e' => e = e'
  | _, _ => False
  end.
Proof.
  unfold getStats. destruct (getPendingMessages st) as [pending|e]; [|done].
  simpl. split; [done|].
  destruct pending as [|r rs]; [done|].
  rewrite fmap_cons. eexists. split; [done|]. apply Math_min_spec.
Qed.

(** *** Listing after a restart (C5) *)

Lemma storeAll_localStorage calls st :
  useLocalStorage st = true ->
  useLocalStorage (storeAll calls st) = true
  /\ getLocalStorageMessages (storeAll calls st)
     = getLocalStorageMessages st ++ newRecords calls.
Proof.
  revert st. induction calls as [|[[[now_id random] now] message] calls IH]; intros st Hls.
  - simpl. by rewrite app_nil_r.
  - change (storeAll ((now_id, random, now, message) :: calls) st)
      with (storeAll calls (storeMessage now_id random now message st).2).
    unfold storeMessage. rewrite Hls. simpl.
    destruct (IH (setItem (getLocalStorageMessages st
                             ++ [newRecord now_id random now message]) st) Hls) as [-> ->].
    split; [done|].
    change (getLocalStorageMessages (setItem ?l st)) with l.
    by rewrite <- app_assoc.
Qed.

Lemma newRecords_pending calls :
  filter (fun r => synced r = false) (newRecords calls) = newRecords calls.
Proof.
  induction calls as [|[[[now_id random] now] message] calls IH]; [done|].
  unfold newRecords in *. rewrite fmap_cons, filter_cons. simpl. by rewrite IH.
Qed.

Lemma newRecords_timestamps calls :
  timestamp <$> newRecords calls = (fun c => c.1.2) <$> calls.
Proof.
  unfold newRecords. rewrite <- list_fmap_compose. apply list_fmap_ext.
  by intros _ [[[now_id random] now] message] _.
Qed.

(** The LocalStorage fallback does what the specification asks: after a
    restart the listing returns what was pending before, followed by the
    enqueued records in the order of enqueueing, which is the order of their
    timestamps when the clock did not run backwards. *)
Lemma listPending_localStorage_after_restart calls st :
  useLocalStorage st = true ->
  getPendingMessages (restart false (storeAll calls st))
  = Ok (filter (fun r => synced r = false) (getLocalStorageMessages st) ++ newRecords calls)
  /\ (Sorted Z.le ((fun c => c.1.2) <$> calls) ->
      Sorted Z.le (timestamp <$> newRecords calls)).
Proof.
  intros Hls. destruct (storeAll_localStorage calls st Hls) as [_ Hrec].
  split; [|by rewrite newRecords_timestamps].
  unfold getPendingMessages, restart, constructor, browser_of. simpl.
  unfold getLocalStorageMessages in *. simpl. rewrite Hrec.
  by rewrite filter_app, newRecords_pending.
Qed.

(** On the object store of a standard engine the listing is empty whatever
    is stored; on an engine with boolean keys it would return the Pending
    rows in primary-key order. *)
Lemma listPending_indexeddb st pending :
  useLocalStorage st = false ->
  getPendingMessages st = Ok pending ->
  pending = if booleanKeys (objectStore st)
            then filter (fun r => synced r = false) (rows (objectStore st))
            else [].
Proof.
  intros Hls [_ ->]%getPendingMessages_ok. unfold lists, records. by rewrite Hls.
Qed.

(** No operation changes how the engine treats booleans. *)
Lemma exec_booleanKeys st op :
  wf st -> booleanKeys (objectStore (exec st op)) = booleanKeys (objectStore st).
Proof.
  intros Hwf. destruct op as [now_id random now message|now mid| | |]; simpl; try done.
  - unfold storeMessage, storeInLocalStorage, storeInIndexedDB, add.
    destruct (useLocalStorage st); [done|].
    destruct (transaction st); [|done]. by destruct (violates_unique _ _ _).
  - destruct (decide (ready st)) as [Hr|Hn].
    + by apply markAsSynced_spec.
    + by rewrite (markAsSynced_not_ready _ _ _ Hn).
  - by apply clearSyncedMessages_spec.
Qed.

(** C5 fails on the IndexedDB backend, the one the service uses unless
    opening the database failed.  Three records are enqueued and stored,
    all Pending; the listing, before or after a restart, returns none of
    them, because it walks the [synced] index and no record has an entry
    there.  The LocalStorage backend returns all three, in order. *)
Theorem listPending_indexeddb_returns_nothing :
  messageId <$> rows (objectStore idb_three) = ["A-1000"; "A-2000"; "A-3000"]%string
  /\ synced <$> rows (objectStore idb_three) = [false; false; false]
  /\ getPendingMessages idb_three = Ok []
  /\ getPendingMessages (restart true idb_three) = Ok []
  /\ (messageId <$> match getPendingMessages (restart false ls_three) with
                    | Ok pending => pending
                    | Throw _ => []
                    end) = ["A-1000"; "A-2000"; "A-3000"]%string.
Proof. vm_compute. done. Qed.

End OutboxProperties.

(* ===================================================================== *)
(** * Properties of the sync manager *)
(* ===================================================================== *)

Section SyncProperties.

Import Outbox OutboxOps Sync Samples.

Implicit Types (w : World) (env : Env) (st : Storage) (r : StoredRecord)
  (rs messages pending : list StoredRecord) (marks : list (Z * string)).

Lemma uploadMessage_spec env k r w :
  uploadMessage (remote_ok env k) r w
  = (if upload_ok env k r then Ok tt else Throw UploadError, w).
Proof.
  unfold uploadMessage, upload_ok.
  destruct (String.eqb (type r) "SOS_BROADCAST"), (String.eqb (type r) "CHAT_BROADCAST"),
    (remote_ok env k); done.
Qed.

(** One record never aborts the batch: [syncOne] always returns, having
    counted the record as synced or as failed. *)
Lemma syncOne_total env total k r counts w :
  exists counts' w',
    syncOne env total k r counts w = (Ok counts', w')
    /\ (counts'.1 + counts'.2 = S (counts.1 + counts.2))%nat
    /\ isOnline w' = isOnline w /\ isSyncing w' = isSyncing w
    /\ exists progress, notified w' = notified w ++ progress.
Proof.
  destruct counts as [synced failed].
  unfold syncOne, try_catch, mbind, M_bind, mret, M_ret.
  rewrite uploadMessage_spec.
  destruct (upload_ok env k r).
  - unfold storage_call.
    destruct (markAsSynced (clock env k) (messageId r) (offlineStorage w)) as [[[]|e] st'];
      simpl.
    + eexists _, _. split; [done|]. simpl.
      split; [lia|]. split; [done|]. split; [done|]. by eexists.
    + eexists _, _. split; [done|]. simpl.
      split; [lia|]. split; [done|]. split; [done|]. exists []. by rewrite app_nil_r.
  - eexists _, _. split; [done|]. simpl.
    split; [lia|]. split; [done|]. split; [done|]. exists []. by rewrite app_nil_r.
Qed.

Lemma syncLoop_total env total k messages counts w :
  exists counts' w',
    syncLoop env total k messages counts w = (Ok counts', w')
    /\ (counts'.1 + counts'.2 = counts.1 + counts.2 + length messages)%nat
    /\ isOnline w' = isOnline w /\ isSyncing w' = isSyncing w
    /\ exists progress, notified w' = notified w ++ progress.
Proof.
  revert k counts w. induction messages as [|r rest IH]; intros k counts w.
  - exists counts, w. simpl.
    split; [done|]. split; [lia|]. split; [done|]. split; [done|].
    exists []. by rewrite app_nil_r.
  - destruct (syncOne_total env total k r counts w)
      as (c1 & w1 & H1 & Hsum1 & Hon1 & Hsy1 & p1 & Hn1).
    destruct (IH (S k) c1 w1) as (c2 & w2 & H2 & Hsum2 & Hon2 & Hsy2 & p2 & Hn2).
    exists c2, w2. simpl. unfold mbind, M_bind. rewrite H1, H2.
    split; [done|]. split; [simpl in *; lia|].
    split; [congruence|]. split; [congruence|].
    exists (p1 ++ p2). by rewrite Hn2, Hn1, app_assoc.
Qed.

Lemma syncPendingMessages_unfold env w :
  isOnline w = true -> isSyncing w = false ->
  syncPendingMessages env w =
    match getPendingMessages (offlineStorage w) with
    | Throw e =>
        (Ok tt, {| isOnline := true; isSyncing := false;
                   offlineStorage := offlineStorage w;
                   notified := notified w ++ [SyncStart] ++ [SyncError e] |})
    | Ok pending =>
        if Nat.eqb (length pending) 0 then
          (Ok tt, {| isOnline := true; isSyncing := false;
                     offlineStorage := offlineStorage w;
                     notified := notified w ++ [SyncStart] |})
        else
          match loop_of env pending w with
          | (Ok counts, w1) =>
              match clearSyncedMessages (offlineStorage w1) with
              | (Ok _, st2) =>
                  (Ok tt, {| isOnline := isOnline w1; isSyncing := false;
                             offlineStorage := st2;
                             notified := notified w1 ++ [SyncComplete counts.1 counts.2] |})
              | (Throw e, st2) =>
                  (Ok tt, {| isOnline := isOnline w1; isSyncing := false;
                             offlineStorage := st2;
                             notified := notified w1 ++ [SyncError e] |})
              end
          | (Throw e, w1) =>
              (Ok tt, {| isOnline := isOnline w1; isSyncing := false;
                         offlineStorage := offlineStorage w1;
                         notified := notified w1 ++ [SyncError e] |})
          end
    end.
Proof.
  intros Hon Hsy. unfold syncPendingMessages. rewrite Hon, Hsy.
  unfold mbind, M_bind, try_finally, try_catch, storage_read, storage_call, loop_of.
  cbn [negb set_isSyncing notifyListeners started isOnline isSyncing offlineStorage notified].
  unfold started. rewrite Hon.
  destruct (getPendingMessages (offlineStorage w)) as [pending|e].
  2:{ simpl. by rewrite <- app_assoc. }
  destruct (Nat.eqb (length pending) 0); [done|].
  destruct (syncLoop env (length pending) 0 pending (0%nat, 0%nat) _) as [[counts|e'] w1];
    [|done].
  by destruct (clearSyncedMessages (offlineStorage w1)) as [[[]|e] st2].
Qed.

(** C4, as the specification states it, fails: a pass that finds nothing
    pending tells its listeners [sync_start] and nothing more. *)
Lemma sync_pass_counterexample :
  ~ (forall env w,
       isOnline w = true -> isSyncing w = false ->
       let r := syncPendingMessages env w in
       isSyncing r.2 = false
       /\ ((exists synced failed, last (notified r.2) = Some (SyncComplete synced failed))
           \/ (exists e, last (notified r.2) = Some (SyncError e)))).
Proof.
  intros H.
  destruct (H (fails_at 1) (Sync.constructor true (Outbox.constructor false fresh_browser))
              eq_refl eq_refl) as [_ [(synced & failed & Hl)|(e & Hl)]];
    vm_compute in Hl; discriminate Hl.
Qed.

(** C4 (amended).  A pass that starts (the manager is online and not
    syncing) always returns with the Syncing flag cleared.  If listing the
    pending records throws, the listeners get [sync_start] and [sync_error]
    and the store is untouched.  If at least one record is pending, every
    record is counted as synced or failed, [clearSyncedMessages] is called
    on the store the loop left, and the last notification is
    [sync_complete] with the two counts, or [sync_error] if the compaction
    threw. *)
Theorem sync_pass_outcome env w :
  isOnline w = true -> isSyncing w = false ->
  let r := syncPendingMessages env w in
  r.1 = Ok tt /\ isSyncing r.2 = false /\ isOnline r.2 = true
  /\ match getPendingMessages (offlineStorage w) with
     | Throw e =>
         notified r.2 = notified w ++ [SyncStart; SyncError e]
         /\ offlineStorage r.2 = offlineStorage w
     | Ok [] => offlineStorage r.2 = offlineStorage w
     | Ok pending =>
         exists synced failed w1 progress,
           loop_of env pending w = (Ok (synced, failed), w1)
           /\ (synced + failed = length pending)%nat
           /\ notified w1 = notified w ++ [SyncStart] ++ progress
           /\ offlineStorage r.2 = (clearSyncedMessages (offlineStorage w1)).2
           /\ notified r.2 =
                notified w1 ++
                  [match (clearSyncedMessages (offlineStorage w1)).1 with
                   | Ok _ => SyncComplete synced failed
                   | Throw e => SyncError e
                   end]
     end.
Proof.
  intros Hon Hsy r. subst r. rewrite (syncPendingMessages_unfold env w Hon Hsy).
  destruct (getPendingMessages (offlineStorage w)) as [[|m pending]|e];
    cbn [length Nat.eqb]; [done| |done].
  unfold loop_of.
  destruct (syncLoop_total env (length (m :: pending)) 0 (m :: pending) (0%nat, 0%nat) (started w))
    as ([synced failed] & w1 & -> & Hsum & Hon1 & Hsy1 & progress & Hn).
  cbn [fst snd length started isOnline notified] in Hsum, Hon1, Hn. rewrite Hon in Hon1.
  assert (exists synced' failed' w1' progress',
            (Ok (synced, failed), w1) = (Ok (synced', failed'), w1')
            /\ (synced' + failed' = S (length pending))%nat
            /\ notified w1' = notified w ++ SyncStart :: progress'
            /\ synced' = synced /\ failed' = failed /\ w1' = w1) as Hex.
  { exists synced, failed, w1, progress. split_and!; try done. by rewrite Hn, <- app_assoc. }
  destruct (clearSyncedMessages (offlineStorage w1)) as [[[]|e] st2] eqn:Hc; simpl;
    (split; [done|]; split; [done|]; split; [congruence|]);
    destruct Hex as (s' & f' & w' & p' & He & Hs & Hn' & -> & -> & ->);
    exists synced, failed, w1, p'; rewrite Hc; done.
Qed.

Lemma sync_pass_outcome_witness :
  (let r := syncPendingMessages (fails_at 1) (Sync.constructor true ls_three) in
   r.1 = Ok tt /\ isSyncing r.2 = false /\ isOnline r.2 = true
   /\ last (notified r.2) = Some (SyncComplete 2 1))
  /\ (let r := syncPendingMessages (fails_at 1)
                 (Sync.constructor true (Outbox.destroy idb_three)) in
      r.1 = Ok tt /\ isSyncing r.2 = false
      /\ notified r.2 = [SyncStart; SyncError InvalidStateError]).
Proof.
  split.
  - pose proof (sync_pass_outcome (fails_at 1) (Sync.constructor true ls_three)
                  eq_refl eq_refl) as (H1 & H2 & H3 & _).
    split; [exact H1|]. split; [exact H2|]. split; [exact H3|]. vm_compute. reflexivity.
  - pose proof (sync_pass_outcome (fails_at 1)
                  (Sync.constructor true (Outbox.destroy idb_three))
                  eq_refl eq_refl) as (H1 & H2 & _ & H4).
    split; [exact H1|]. split; [exact H2|]. exact (proj1 H4).
Defined.

(** *** The loop and the marks it makes *)

Lemma marks_of_length env k messages :
  (length (marks_of env k messages) <= length messages)%nat.
Proof.
  revert k. induction messages as [|r rest IH]; intros k; simpl; [lia|].
  rewrite length_app. specialize (IH (S k)).
  destruct (upload_ok env k r); simpl; lia.
Qed.

Lemma marks_of_app env k l1 l2 :
  marks_of env k (l1 ++ l2) = marks_of env k l1 ++ marks_of env (k + length l1) l2.
Proof.
  revert k. induction l1 as [|r l1 IH]; intros k; simpl.
  - by rewrite Nat.add_0_r.
  - rewrite IH, <- app_assoc. do 3 f_equal. lia.
Qed.

Lemma marks_of_all_ok env k l :
  (forall j r, l !! j = Some r -> upload_ok env (k + j) r = true) ->
  (marks_of env k l).*2 = messageId <$> l.
Proof.
  revert k. induction l as [|r l IH]; intros k Hok; [done|].
  simpl.
  pose proof (Hok 0%nat r eq_refl) as H0. rewrite Nat.add_0_r in H0. rewrite H0.
  simpl. f_equal. apply IH. intros j r' Hj.
  replace (S k + j)%nat with (k + S j)%nat by lia. by apply Hok.
Qed.

Lemma apply_marks_app marks1 marks2 rs :
  apply_marks (marks1 ++ marks2) rs = apply_marks marks2 (apply_marks marks1 rs).
Proof. unfold apply_marks. apply foldl_app. Qed.

Lemma apply_marks_other marks rs r :
  messageId r ∉ marks.*2 -> r ∈ rs -> r ∈ apply_marks marks rs.
Proof.
  revert rs. induction marks as [|[t mid] marks IH]; intros rs Hn Hin; [done|].
  rewrite fmap_cons, not_elem_of_cons in Hn. destruct Hn as [Hne Hn].
  unfold apply_marks. simpl. apply IH; [done|].
  apply (list_elem_of_fmap_2' _ _ r); [done|].
  unfold mark_if. simpl in Hne. by apply String.eqb_neq in Hne as ->.
Qed.

Lemma filter_pending_mark_if t mid (ids : list string) rs :
  filter (fun r => synced r = false /\ messageId r ∉ ids) (mark_if t mid <$> rs)
  = filter (fun r => synced r = false /\ messageId r ∉ mid :: ids) rs.
Proof.
  induction rs as [|x l IH]; [done|].
  rewrite fmap_cons, !filter_cons, IH.
  assert (mark_if t mid x = if String.eqb (messageId x) mid then mark t x else x) as -> by done.
  destruct (String.eqb (messageId x) mid) eqn:E.
  - apply String.eqb_eq in E.
    rewrite decide_False by (simpl; intros [? _]; done).
    rewrite decide_False; [done|]. intros [_ Hn]. apply Hn. rewrite E. apply list_elem_of_here.
  - apply String.eqb_neq in E.
    destruct (decide (synced x = false /\ messageId x ∉ ids)) as [[Hp Hn]|Hn].
    + rewrite decide_True; [done|]. split; [done|]. rewrite not_elem_of_cons. by split.
    + rewrite decide_False; [done|]. intros [Hp Hn']. apply Hn. split; [done|].
      rewrite not_elem_of_cons in Hn'. tauto.
Qed.

Lemma filter_pending_apply_marks marks (ids : list string) rs :
  filter (fun r => synced r = false /\ messageId r ∉ ids) (apply_marks marks rs)
  = filter (fun r => synced r = false /\ messageId r ∉ reverse marks.*2 ++ ids) rs.
Proof.
  revert rs ids. induction marks as [|[t mid] marks IH]; intros rs ids; [done|].
  unfold apply_marks. simpl. fold (apply_marks marks (mark_if t mid <$> rs)).
  rewrite IH, filter_pending_mark_if.
  apply list_filter_iff. intros x. rewrite reverse_cons, <- app_assoc. simpl.
  rewrite !elem_of_app, !elem_of_cons, !elem_of_app. tauto.
Qed.

(** The loop, on either backend: it returns, and what is stored is marked
    for every record whose upload succeeded. *)
Lemma syncLoop_records env total k messages counts w :
  ready (offlineStorage w) -> wf (offlineStorage w) ->
  exists w',
    syncLoop env total k messages counts w
    = (Ok ((counts.1 + length (marks_of env k messages))%nat,
           (counts.2 + (length messages - length (marks_of env k messages)))%nat), w')
    /\ records (offlineStorage w')
       = apply_marks (marks_of env k messages) (records (offlineStorage w))
    /\ ready (offlineStorage w') /\ wf (offlineStorage w')
    /\ lists (offlineStorage w') = lists (offlineStorage w).
Proof.
  revert k counts w. induction messages as [|r rest IH]; intros k [synced failed] w Hready Hwf.
  - exists w. simpl. by rewrite !Nat.add_0_r.
  - simpl. unfold mbind, M_bind. unfold syncOne, try_catch, mbind, M_bind, mret, M_ret.
    rewrite uploadMessage_spec.
    pose proof (marks_of_length env (S k) rest) as Hlen.
    destruct (upload_ok env k r) eqn:Hok.
    + unfold storage_call.
      destruct (markAsSynced_spec (clock env k) (messageId r) _ Hready Hwf)
        as (Hres & Hrec & Hls & Hdb & Hwf' & _ & Hbk).
      destruct (markAsSynced (clock env k) (messageId r) (offlineStorage w)) as [res st'].
      simpl in Hres, Hrec, Hls, Hdb, Hwf', Hbk. subst res. simpl.
      assert (ready st') as Hready' by (unfold ready; by rewrite Hls, Hdb).
      match goal with
      | |- context [syncLoop env total (S k) rest ?c ?w1] =>
          destruct (IH (S k) c w1 Hready' Hwf') as (w' & -> & Hrec' & Hr' & Hw' & Hl')
      end.
      exists w'. simpl in *. split; [do 2 f_equal; f_equal; lia|].
      split; [by rewrite Hrec', Hrec|]. split; [done|]. split; [done|].
      rewrite Hl'. unfold lists. by rewrite Hls, Hbk.
    + simpl. destruct (IH (S k) (synced, S failed) w Hready Hwf)
        as (w' & -> & Hrec' & Hr' & Hw' & Hl').
      exists w'. simpl in *. split; [do 2 f_equal; f_equal; lia|]. by split.
Qed.

(** *** One failing upload in a batch (C3) *)

(** C3, as the specification states it, fails: nothing ever writes
    [retryCount].  Three records are pending, the upload of the second one
    fails: after the pass it is the only stored record, still Pending, and
    its [retryCount] is 0, not 1. *)
Lemma sync_retry_count_counterexample :
  ~ (forall env w pending k r,
       isOnline w = true -> isSyncing w = false ->
       wf (offlineStorage w) ->
       getPendingMessages (offlineStorage w) = Ok pending ->
       NoDup (messageId <$> pending) ->
       pending !! k = Some r ->
       (forall j r', pending !! j = Some r' -> upload_ok env j r' = negb (Nat.eqb j k)) ->
       exists r',
         r' ∈ records (offlineStorage (syncPendingMessages env w).2)
         /\ messageId r' = messageId r
         /\ synced r' = false
         /\ retryCount r' = 1%nat).
Proof.
  intros H.
  destruct (H (fails_at 1) (Sync.constructor true ls_three)
              [newRecord 1000 "0.1" 1000 msg1; newRecord 2000 "0.2" 2000 msg2;
               newRecord 3000 "0.3" 3000 msg3]
              1%nat (newRecord 2000 "0.2" 2000 msg2))
    as (r' & Hrec & _ & _ & Hretry); try done.
  - apply (storeAll_wf three_calls), wf_fresh.
  - compute_done.
  - intros [|[|[|j]]] r' Hj; simplify_eq/=; done.
  - vm_compute in Hrec. apply list_elem_of_singleton in Hrec. by subst r'.
Qed.

(** C3 (amended).  A pass over pending records with distinct ids, in which
    the upload of exactly one record fails: the loop goes on past the
    failure and counts all the others as synced and this one as failed;
    when the loop ends every other record is stored as Synced and the
    failing record is stored as it was, Pending and with its [retryCount]
    unchanged; the compaction that ends the pass removes the Synced records
    and only them, so the failing record is all that is stored and all that
    is pending, and the listeners are told [sync_complete] with the two
    counts. *)
Theorem sync_partial_failure env w pending k r :
  isOnline w = true -> isSyncing w = false ->
  wf (offlineStorage w) ->
  getPendingMessages (offlineStorage w) = Ok pending ->
  NoDup (messageId <$> pending) ->
  pending !! k = Some r ->
  (forall j r', pending !! j = Some r' -> upload_ok env j r' = negb (Nat.eqb j k)) ->
  exists w1,
    loop_of env pending w = (Ok ((length pending - 1)%nat, 1%nat), w1)
    /\ (forall j r', pending !! j = Some r' -> j <> k ->
          mark (clock env j) r' ∈ records (offlineStorage w1))
    /\ r ∈ records (offlineStorage w1)
    /\ synced r = false
    /\ filter (fun x => synced x = false) (records (offlineStorage w1)) = [r]
    /\ let res := syncPendingMessages env w in
       res.1 = Ok tt
       /\ isSyncing res.2 = false
       /\ records (offlineStorage res.2)
          = filter (fun x => synced x = false) (records (offlineStorage w1))
       /\ getPendingMessages (offlineStorage res.2) = Ok [r]
       /\ last (notified res.2) = Some (SyncComplete (length pending - 1) 1).
Proof.
  intros Hon Hsy Hwf Hget Hnd Hk Hup.
  (* a record is listed, so the backend is one whose records can be listed *)
  destruct (getPendingMessages_ok _ _ Hget) as [Hready Hpend].
  destruct (lists (offlineStorage w)) eqn:Hlists; [|by subst].
  symmetry in Hpend.
  set (ls := records (offlineStorage w)) in *.
  (* the batch around the failing record *)
  pose proof (take_drop_middle _ _ _ Hk) as Hsplit.
  assert (length (take k pending) = k) as Hlpre.
  { rewrite length_take. apply lookup_lt_Some in Hk. lia. }
  remember (take k pending) as pre eqn:Epre. remember (drop (S k) pending) as post eqn:Epost.
  clear Epre Epost.
  assert (forall j r', pre !! j = Some r' -> upload_ok env (0 + j) r' = true) as Hpre.
  { intros j r' Hj. assert (j < k)%nat by (rewrite <- Hlpre; by eapply lookup_lt_Some).
    change (0 + j)%nat with j.
    rewrite (Hup j r'); [by destruct (Nat.eqb_spec j k); [lia|]|].
    rewrite <- Hsplit. by rewrite lookup_app_l by lia. }
  assert (forall j r', post !! j = Some r' -> upload_ok env (S k + j) r' = true) as Hpost.
  { intros j r' Hj.
    rewrite (Hup (S k + j)%nat r'); [by destruct (Nat.eqb_spec (S k + j) k); [lia|]|].
    rewrite <- Hsplit. rewrite lookup_app_r by lia.
    replace (S k + j - length pre)%nat with (S j) by lia. done. }
  assert (upload_ok env k r = false) as Hfail.
  { rewrite (Hup k r Hk). by rewrite Nat.eqb_refl. }
  assert (marks_of env 0 pending = marks_of env 0 pre ++ marks_of env (S k) post) as Hmarks.
  { rewrite <- Hsplit at 1. rewrite marks_of_app. simpl. by rewrite Hlpre, Hfail. }
  assert ((marks_of env 0 pending).*2 = messageId <$> (pre ++ post)) as Hids.
  { rewrite Hmarks, !fmap_app.
    by rewrite (marks_of_all_ok _ _ _ Hpre), (marks_of_all_ok _ _ _ Hpost). }
  assert (length (marks_of env 0 pending) = (length pending - 1)%nat) as Hlen.
  { rewrite <- (length_fmap snd), Hids, length_fmap, <- Hsplit, !length_app. simpl. lia. }
  rewrite <- Hsplit, fmap_app, fmap_cons in Hnd.
  apply NoDup_app in Hnd as (Hnd_pre & Hpre_rest & Hnd_rest).
  apply NoDup_cons in Hnd_rest as (Hr_post & Hnd_post).
  assert (messageId r ∉ messageId <$> pre) as Hr_pre.
  { intros Hin. apply (Hpre_rest _ Hin), list_elem_of_here. }
  assert (forall j x, pending !! j = Some x -> synced x = false /\ x ∈ ls) as Hstored.
  { intros j x Hj. apply (list_elem_of_filter (fun x => synced x = false)).
    rewrite Hpend. by eapply list_elem_of_lookup_2. }
  destruct (Hstored k r Hk) as [Hr_pending Hr_ls].
  (* the loop *)
  destruct (syncLoop_records env (length pending) 0 pending (0%nat, 0%nat) (started w)
              Hready Hwf)
    as (w1 & Hloop & Hrec1 & Hready1 & Hwf1 & Hlists1).
  cbn [fst snd started offlineStorage] in Hloop, Hrec1, Hlists1. fold ls in Hrec1.
  rewrite Hlists in Hlists1.
  assert (length pending - length (marks_of env 0 pending) = 1)%nat as Hone.
  { rewrite Hlen. apply lookup_lt_Some in Hk. lia. }
  rewrite Hone, Hlen in Hloop. simpl in Hloop.
  assert (filter (fun x => synced x = false) (records (offlineStorage w1)) = [r]) as Hleft.
  { rewrite Hrec1.
    transitivity (filter (fun x => synced x = false /\ messageId x ∉ @nil string)
                    (apply_marks (marks_of env 0 pending) ls)).
    { apply list_filter_iff. intros x. split; [intros ?; split; [done|apply not_elem_of_nil]|tauto]. }
    rewrite filter_pending_apply_marks, app_nil_r.
    transitivity (filter (fun x => messageId x ∉ reverse (marks_of env 0 pending).*2)
                    (filter (fun x => synced x = false) ls)).
    { rewrite list_filter_filter. apply list_filter_iff. intros x. tauto. }
    rewrite Hpend. remember (reverse (marks_of env 0 pending).*2) as ids eqn:Eids.
    assert (forall x, x ∈ ids <-> x ∈ messageId <$> pre \/ x ∈ messageId <$> post) as Hmem.
    { intros x. by rewrite Eids, elem_of_reverse, Hids, fmap_app, elem_of_app. }
    clear Eids. rewrite <- Hsplit. rewrite filter_app, filter_cons.
    rewrite !filter_none, decide_True; [done| | |].
    + rewrite Hmem. tauto.
    + apply Forall_forall. intros x Hx Hn. apply Hn.
      rewrite Hmem. right. by apply list_elem_of_fmap_2.
    + apply Forall_forall. intros x Hx Hn. apply Hn.
      rewrite Hmem. left. by apply list_elem_of_fmap_2. }
  exists w1. split; [exact Hloop|]. split; [|split; [|split; [done|split; [done|]]]].
  - (* the other records are stored as Synced *)
    intros j r' Hj Hjk. rewrite Hrec1.
    pose proof (take_drop_middle _ _ _ Hj) as Hsplit'.
    assert (length (take j pending) = j) as Hlj.
    { rewrite length_take. apply lookup_lt_Some in Hj. lia. }
    assert (upload_ok env j r' = true) as Hokj.
    { rewrite (Hup j r' Hj). by destruct (Nat.eqb_spec j k). }
    assert (NoDup (messageId <$> pending)) as Hnd'.
    { rewrite <- Hsplit, fmap_app, fmap_cons. apply NoDup_app. split_and!; [done..|].
      by apply NoDup_cons. }
    rewrite <- Hsplit', fmap_app, fmap_cons in Hnd'.
    apply NoDup_app in Hnd' as (_ & Hb & Ha). apply NoDup_cons in Ha as (Ha & _).
    rewrite <- Hsplit' at 1. rewrite marks_of_app. simpl. rewrite Hlj, Hokj. simpl.
    rewrite apply_marks_app.
    change (apply_marks ((?t, ?i) :: ?ms) ?l) with (apply_marks ms (mark_if t i <$> l)).
    assert (forall n l, (marks_of env n l).*2 ⊆ messageId <$> l) as Hsub.
    { clear. intros n l. revert n. induction l as [|x l IH]; intros n; simpl; [done|].
      rewrite fmap_app. destruct (upload_ok env n x); simpl.
      - intros y [->|Hy]%elem_of_cons; [apply list_elem_of_here|].
        apply list_elem_of_further. by apply (IH (S n)).
      - intros y Hy. apply list_elem_of_further. by apply (IH (S n)). }
    apply apply_marks_other.
    { simpl. intros Hin%Hsub. by apply Ha. }
    apply (list_elem_of_fmap_2' _ _ r').
    + apply apply_marks_other.
      * intros Hin%Hsub. apply (Hb _ Hin), list_elem_of_here.
      * by apply (Hstored j r').
    + unfold mark_if. by rewrite String.eqb_refl.
  - (* the failing record is stored as it was *)
    rewrite Hrec1. apply apply_marks_other; [|done].
    rewrite Hids, fmap_app, elem_of_app. tauto.
  - (* the whole pass *)
    destruct (clearSyncedMessages_spec _ Hwf1)
      as (Hls2 & Hdb2 & Hbk2 & _ & _ & Hclear & _).
    destruct (Hclear Hready1) as [Hres2 Hrec2]. rewrite Hlists1 in Hrec2.
    destruct (clearSyncedMessages (offlineStorage w1)) as [res2 st2] eqn:Hc.
    cbn [fst snd] in Hls2, Hdb2, Hbk2, Hres2, Hrec2. subst res2.
    assert (syncPendingMessages env w
            = (Ok tt,
               {| isOnline := isOnline w1; isSyncing := false;
                  offlineStorage := st2;
                  notified := notified w1 ++ [SyncComplete (length pending - 1) 1] |}))
      as Hres.
    { rewrite (syncPendingMessages_unfold env w Hon Hsy), Hget.
      replace (Nat.eqb (length pending) 0) with false
        by (symmetry; apply Nat.eqb_neq; apply lookup_lt_Some in Hk; lia).
      unfold loop_of. by rewrite Hloop, Hc. }
    intros res. subst res. rewrite Hres.
    cbn [fst snd isSyncing notified offlineStorage].
    split; [done|]. split; [done|]. split; [done|]. split.
    + rewrite getPendingMessages_ready by (unfold ready; by rewrite Hls2, Hdb2).
      replace (lists st2) with true
        by (rewrite <- Hlists1; unfold lists; by rewrite Hls2, Hbk2).
      by rewrite Hrec2, filter_filter_pending, Hleft.
    + by rewrite last_snoc.
Qed.

Lemma sync_partial_failure_witness :
  let w := Sync.constructor true ls_three in
  let res := syncPendingMessages (fails_at 1) w in
  res.1 = Ok tt
  /\ isSyncing res.2 = false
  /\ getPendingMessages (offlineStorage res.2) = Ok [newRecord 2000 "0.2" 2000 msg2]
  /\ last (notified res.2) = Some (SyncComplete 2 1).
Proof.
  assert (forall j r', [newRecord 1000 "0.1" 1000 msg1; newRecord 2000 "0.2" 2000 msg2;
                        newRecord 3000 "0.3" 3000 msg3] !! j = Some r' ->
                       upload_ok (fails_at 1) j r' = negb (Nat.eqb j 1)) as Hup.
  { intros [|[|[|j]]] r' Hj; simplify_eq/=; done. }
  destruct (sync_partial_failure (fails_at 1) (Sync.constructor true ls_three)
              [newRecord 1000 "0.1" 1000 msg1; newRecord 2000 "0.2" 2000 msg2;
               newRecord 3000 "0.3" 3000 msg3]
              1%nat (newRecord 2000 "0.2" 2000 msg2)
              eq_refl eq_refl (storeAll_wf three_calls _ (wf_fresh false))
              eq_refl ltac:(compute_done) eq_refl Hup)
    as (w1 & _ & _ & _ & _ & _ & H1 & H2 & _ & H4 & H5).
  exact (conj H1 (conj H2 (conj H4 H5))).
Defined.

End SyncProperties.

(* ===================================================================== *)
(** * Properties of the Gemini request queue *)
(* ===================================================================== *)

Section GeminiProperties.

Import Gemini.

Implicit Types (responses : nat -> Response) (steps : list Step).

(** The loop, for any retry budget and first delay: it makes [n] rate-limited
    fetches, each followed by a sleep of the next back-off delay, and then
    either has used up the budget (and answers [null]) or makes one more
    fetch whose response is not a rate limit and ends the loop at once. *)
Lemma attempts_spec responses retries delay attempt :
  exists n : nat,
    (n <= retries)%nat
    /\ (forall i, (i < n)%nat -> responses (attempt + i)%nat = ApiError 429)
    /\ ((n = retries
         /\ attempts responses retries delay attempt
            = (None, backoff delay n ≫= fun d => [Fetch; Sleep d]))
        \/ ((n < retries)%nat
            /\ responses (attempt + n)%nat <> ApiError 429
            /\ attempts responses retries delay attempt
               = (outcome (responses (attempt + n)%nat),
                  (backoff delay n ≫= fun d => [Fetch; Sleep d]) ++ [Fetch]))).
Proof.
  revert delay attempt. induction retries as [|retries IH]; intros delay attempt.
  - exists 0%nat. split; [lia|]. split; [intros; lia|]. by left.
  - simpl. destruct (responses attempt) as [| |code|[result|]] eqn:Hr;
      try (exists 0%nat; split; [lia|]; split; [intros; lia|]; right;
           rewrite Nat.add_0_r, Hr; split; [lia|]; split; done).
    destruct (Z.eqb_spec code 429) as [->|Hne].
    + destruct (IH (delay * 2) (S attempt)) as (n & Hn & H429 & Hcase).
      exists (S n). split; [lia|]. split.
      { intros [|i] Hi; [by rewrite Nat.add_0_r|].
        replace (attempt + S i)%nat with (S attempt + i)%nat by lia. apply H429. lia. }
      replace (attempt + S n)%nat with (S attempt + n)%nat by lia.
      destruct Hcase as [[-> ->]|(Hlt & Hlast & ->)]; [by left|].
      right. split; [lia|]. by split.
    + exists 0%nat. split; [lia|]. split; [intros; lia|]. right.
      rewrite Nat.add_0_r, Hr. split; [lia|]. split; [|done]. congruence.
Qed.

Lemma fetches_app steps1 steps2 :
  fetches (steps1 ++ steps2) = (fetches steps1 + fetches steps2)%nat.
Proof. unfold fetches. by rewrite omap_app, length_app. Qed.

Lemma sleeps_app steps1 steps2 : sleeps (steps1 ++ steps2) = sleeps steps1 ++ sleeps steps2.
Proof. unfold sleeps. by rewrite omap_app. Qed.

Lemma fetches_sleeps_backoff delay n :
  fetches (backoff delay n ≫= fun d => [Fetch; Sleep d]) = n
  /\ sleeps (backoff delay n ≫= fun d => [Fetch; Sleep d]) = backoff delay n.
Proof.
  revert delay. induction n as [|n IH]; intros delay; [done|].
  destruct (IH (delay * 2)) as [Hf Hs].
  change (backoff delay (S n) ≫= fun d => [Fetch; Sleep d])
    with ([Fetch; Sleep delay] ++ (backoff (delay * 2) n ≫= fun d => [Fetch; Sleep d])).
  rewrite fetches_app, sleeps_app, Hf, Hs. done.
Qed.

(** C9.  A job at the head of an idle queue: its promise is resolved, never
    rejected, and the restart timer is set to 4000 ms.  The request makes at
    most 3 fetches; a fetch after the first is made only when the one before
    got error code 429, after a sleep of 2000 ms, then 4000 ms; after the
    third 429 (and a last sleep of 8000 ms) the job resolves with [null];
    a fetch that fails, or whose body is not JSON, or that reports another
    error code, ends the request at once and the job resolves with
    [null]. *)
Theorem dispatcher_retry_policy responses job rest :
  exists value steps (n : nat),
    processQueue responses {| requestQueue := job :: rest; isProcessingQueue := false |}
    = ({| requestQueue := rest; isProcessingQueue := true |},
       (Request <$> steps) ++ [Resolve (promise job) value; SetTimeout 4000])
    /\ (fetches steps <= 3)%nat
    /\ sleeps steps = take n [2000; 4000; 8000]
    /\ (forall i, (i < n)%nat -> responses i = ApiError 429)
    /\ match sosData job with
       | None => steps = [] /\ value = None
       | Some _ =>
           (n = 3%nat /\ fetches steps = 3%nat /\ value = None)
           \/ ((n < 3)%nat /\ fetches steps = S n
               /\ responses n <> ApiError 429
               /\ value = outcome (responses n)
               /\ last steps = Some Fetch)
       end.
Proof.
  unfold processQueue, performGeminiRequest. simpl.
  destruct (sosData job) as [d|].
  - destruct (attempts_spec responses 3 2000 0) as (n & Hn & H429 & Hcase).
    simpl in H429, Hcase.
    destruct Hcase as [[-> ->]|(Hlt & Hlast & ->)].
    + exists None, (backoff 2000 3 ≫= fun d => [Fetch; Sleep d]), 3%nat.
      split; [done|]. split; [simpl; unfold fetches; simpl; lia|].
      split; [done|]. split; [done|]. left. by split.
    + exists (outcome (responses n)),
        ((backoff 2000 n ≫= fun d => [Fetch; Sleep d]) ++ [Fetch]), n.
      destruct (fetches_sleeps_backoff 2000 n) as [Hf Hs].
      split; [done|]. rewrite fetches_app, sleeps_app, Hf, Hs. simpl.
      split; [unfold fetches; simpl; lia|].
      split; [rewrite app_nil_r; by destruct n as [|[|[|n]]]; [..|lia]|].
      split; [done|]. right. split; [done|]. split; [unfold fetches; simpl; lia|].
      split; [done|]. split; [done|]. by rewrite last_snoc.
  - exists None, [], 0%nat. split; [done|]. split; [unfold fetches; simpl; lia|].
    split; [done|]. split; [intros; lia|done].
Qed.

End GeminiProperties.

(* ===================================================================== *)
(** * More properties of the mesh router *)
(* ===================================================================== *)

Section MeshRunProperties.

Import Mesh MeshRuns Samples.

Implicit Types (s : Service) (m : MeshData) (now random : Z) (client : Client).





Lemma posts_fire (es : list Effect) : posts (es ≫= fire) = forwards es.
Proof.
  induction es as [|e es IH]; [done|].
  change ((e :: es) ≫= fire) with (fire e ++ (es ≫= fire)).
  unfold posts, forwards in *. rewrite omap_app, IH. by destruct e.
Qed.

(** X2.  Along a line of routers that all have the same [maxHops], a message
    is relayed at most [maxHops - 1 - hops] times, however long the line is;
    the [i]-th copy posted carries [hops + i] hops, below [maxHops], and the
    id, sender, timestamp, type and payload of the original. *)
Theorem relay_bounded routers m M :
  Forall (fun r => maxHops r.2 = M) routers ->
  Z.of_nat (length (relay routers m)) <= Z.max 0 (M - 1 - hops m)
  /\ forall i fwd, relay routers m !! i = Some fwd ->
       hops fwd = hops m + Z.of_nat (S i) /\ hops fwd < M
       /\ messageId fwd = messageId m /\ senderId fwd = senderId m
       /\ timestamp fwd = timestamp m /\ type fwd = type m /\ payload fwd = payload m.
Proof.
  intros Hall. revert m.
  induction Hall as [|[[[now random] client] s] rest Hs _ IH]; intros m.
  { simpl. split; [lia|]. by intros i fwd. }
  simpl in Hs. simpl. rewrite posts_fire.
  destruct (handle_effects now random client m s) as [_ ->].
  destruct (accepts now m s && negb (maxHops s <=? hops m + 1)) eqn:Hfw; [|split; [simpl; lia|done]].
  apply andb_true_iff in Hfw as [_ Hlt%negb_true_iff%Z.leb_gt]. rewrite Hs in Hlt.
  destruct (IH (forwardedData m (hops m + 1) (deviceId s))) as [Hlen Hcopies].
  simpl in Hlen, Hcopies. split; [simpl; lia|].
  intros [|i] fwd Hi; simpl in Hi.
  - injection Hi as <-. simpl. split_and!; try done; lia.
  - destruct (Hcopies i fwd Hi) as (-> & ? & -> & -> & -> & -> & ->).
    split_and!; try done; lia.
Qed.

Lemma relay_bounded_witness :
  hops <$> relay line_of_six sos_from_A = [2; 3; 4]
  /\ Z.of_nat (length (relay line_of_six sos_from_A)) <= 3.
Proof.
  split; [reflexivity|].
  exact (proj1 (relay_bounded line_of_six sos_from_A 5 ltac:(repeat constructor))).
Defined.

(** X3.  [cleanupOldMessages] keeps exactly the cache entries that are at
    most [ttl] old.  Removing an entry does not let the message in again:
    once a router has accepted a message, the same message is dropped at
    every later time, whether or not a cleanup ran in between, because an
    entry is only removed when the message itself has expired. *)
Theorem cleanup_keeps_suppressing now1 random1 client1 now random client now' m s :
  accepts now1 m s = true ->
  now <= now' ->
  let s1 := (handleIncomingMessage now1 random1 client1 m s).1 in
  let s2 := cleanupOldMessages now s1 in
  (forall id e, messageCache s2 !! id = Some e <->
                messageCache s1 !! id = Some e /\ now - ce_timestamp e <= ttl s1)
  /\ handleIncomingMessage now' random client m s1 = (s1, [])
  /\ handleIncomingMessage now' random client m s2 = (s2, []).
Proof.
  intros Ha Hle s1 s2.
  assert (forall id e, messageCache s2 !! id = Some e <->
            messageCache s1 !! id = Some e /\ now - ce_timestamp e <= ttl s1) as Hkeep.
  { intros id e. unfold s2, cleanupOldMessages. simpl.
    rewrite map_lookup_filter_Some. simpl.
    rewrite negb_true_iff, Z.ltb_ge. done. }
  assert (messageCache s1 !! messageId m = Some (cacheEntry m) /\ ttl s1 = ttl s) as [Hc Httl].
  { unfold s1. rewrite (handle_accepted _ _ _ _ _ Ha). simpl. by rewrite lookup_insert_eq. }
  split; [done|]. split.
  - apply handle_rejected, cached_not_accepted. by eexists.
  - apply handle_rejected.
    destruct (decide (now - timestamp m <= ttl s1)) as [Hfresh|Hold].
    + apply cached_not_accepted. exists (cacheEntry m). by apply Hkeep.
    + unfold accepts. replace (ttl s2) with (ttl s1) by done.
      replace (ttl s1 <? now' - timestamp m) with true by (symmetry; apply Z.ltb_lt; lia).
      simpl. by rewrite andb_false_r.
Qed.

Lemma cleanup_keeps_suppressing_witness :
  let s1 := (handleIncomingMessage 2000 0 quiet sos_from_B (constructor "A")).1 in
  let s2 := cleanupOldMessages 400000 s1 in
  messageCache s2 !! "sos_B_1000"%string = None
  /\ handleIncomingMessage 400001 0 quiet sos_from_B s2 = (s2, []).
Proof.
  split; [vm_compute; reflexivity|].
  exact (proj2 (proj2 (cleanup_keeps_suppressing 2000 0 quiet 400000 0 quiet 400001
                         sos_from_B (constructor "A") eq_refl ltac:(lia)))).
Defined.

Lemma remove_first_absent (h : Handler) (hs : list Handler) :
  h ∉ hs -> remove_first h hs = hs /\ remove_first h (hs ++ [h]) = hs.
Proof.
  induction hs as [|h' hs IH]; intros Hn; simpl.
  - by rewrite Nat.eqb_refl.
  - apply not_elem_of_cons in Hn as [Hne Hn].
    destruct (Nat.eqb_spec h h') as [?|_]; [done|].
    destruct (IH Hn) as [-> ->]. done.
Qed.

Lemma remove_first_perm (h : Handler) (hs : list Handler) :
  h ∈ hs -> h :: remove_first h hs ≡ₚ hs.
Proof.
  induction hs as [|h' hs IH]; [by intros ?%elem_of_nil|].
  simpl. destruct (Nat.eqb_spec h h') as [->|Hne]; [done|].
  intros [?|Hin]%elem_of_cons; [done|].
  rewrite Permutation_swap. by rewrite (IH Hin).
Qed.

(** X4.  The function [onMessage] returns undoes the registration: the
    handlers are the same as before, up to order, and exactly the same list
    when the handler was not registered before.  Calling it for a handler
    that is not registered changes nothing, so calling it twice is harmless.
    When the handler was already registered, it is the older registration
    that goes. *)
Theorem unsubscribe_undoes_onMessage h s :
  messageHandlers (unsubscribe h (onMessage h s)) ≡ₚ messageHandlers s
  /\ (h ∉ messageHandlers s ->
      unsubscribe h s = s
      /\ unsubscribe h (onMessage h s) = s
      /\ unsubscribe h (unsubscribe h (onMessage h s)) = s)
  /\ (forall hs1 hs2, h ∉ hs1 -> messageHandlers s = hs1 ++ h :: hs2 ->
      messageHandlers (unsubscribe h (onMessage h s)) = hs1 ++ hs2 ++ [h]).
Proof.
  split; [|split].
  - unfold unsubscribe, onMessage. simpl.
    apply (inj (cons h)). rewrite remove_first_perm by (apply elem_of_app; right; apply list_elem_of_here).
    by rewrite Permutation_app_comm.
  - intros Hn. destruct (remove_first_absent h _ Hn) as [H1 H2].
    unfold unsubscribe, onMessage, set_messageHandlers. simpl.
    rewrite H2. simpl. rewrite H1. by destruct s.
  - intros hs1 hs2 Hn Hs. unfold unsubscribe, onMessage. simpl.
    rewrite Hs, <- app_assoc. simpl. clear Hs.
    induction hs1 as [|x hs1 IH]; simpl.
    + by rewrite Nat.eqb_refl.
    + apply not_elem_of_cons in Hn as [Hne Hn].
      destruct (Nat.eqb_spec h x) as [?|_]; [done|]. by rewrite IH.
Qed.

(** X5.  A device names its broadcasts by kind, device and clock: two SOS
    broadcasts of one device get the same [messageId] exactly when the clock
    read the same millisecond for both, and an SOS id is never a chat id.
    A peer that accepted the first of two same-millisecond broadcasts drops
    the second as a duplicate. *)
Theorem broadcast_ids now1 ts1 data1 now2 ts2 data2 s :
  let b1 := broadcastSOS now1 ts1 data1 s in
  let b2 := broadcastSOS now2 ts2 data2 s in
  let c2 := broadcastChat now2 ts2 data2 s in
  (b1.1.1 = b2.1.1 <-> now1 = now2)
  /\ b1.1.1 <> c2.1.1
  /\ (now1 = now2 ->
      forall m1 m2 peer t1 r1 c1 t2 r2 c2,
        posts b1.2 = [m1] -> posts b2.2 = [m2] ->
        accepts t1 m1 peer = true ->
        handleIncomingMessage t2 r2 c2 m2 (handleIncomingMessage t1 r1 c1 m1 peer).1
        = ((handleIncomingMessage t1 r1 c1 m1 peer).1, [])).
Proof.
  simpl. split; [|split].
  - split; [|by intros ->].
    intros H. do 3 apply (inj (String.append _)) in H. by apply (inj pretty) in H.
  - done.
  - intros -> m1 m2 peer t1 r1 c1 t2 r2 c2 [= <-] [= <-] Ha.
    apply handle_rejected, cached_not_accepted.
    rewrite (handle_accepted _ _ _ _ _ Ha). simpl. rewrite lookup_insert_eq. by eexists.
Qed.

End MeshRunProperties.

(* ===================================================================== *)
(** * More properties of the outbox *)
(* ===================================================================== *)

Section OutboxMoreProperties.

Import Outbox OutboxOps Samples.

Implicit Types (st : Storage) (os : ObjectStore) (r : StoredRecord)
  (rs : list StoredRecord) (mid : string).

(** X6.  On the LocalStorage fallback the outbox survives a restart: a new
    service over the same browser lists what the old one listed, which is
    what was pending before followed by the enqueued records in the order
    of enqueueing, all of them Pending with [retryCount] 0. *)
Theorem fallback_listing_after_restart calls st :
  useLocalStorage st = true ->
  let before := filter (fun r => synced r = false) (getLocalStorageMessages st) in
  getPendingMessages (storeAll calls st) = Ok (before ++ newRecords calls)
  /\ getPendingMessages (restart false (storeAll calls st)) = Ok (before ++ newRecords calls)
  /\ Forall (fun r => synced r = false /\ retryCount r = 0%nat /\ syncedAt r = None)
       (newRecords calls)
  /\ timestamp <$> newRecords calls = (fun c => c.1.2) <$> calls.
Proof.
  intros Hls before. destruct (storeAll_localStorage calls st Hls) as [Hls' Hrec].
  assert (getPendingMessages (storeAll calls st) = Ok (before ++ newRecords calls)) as Hget.
  { unfold getPendingMessages. rewrite Hls', Hrec.
    by rewrite filter_app, newRecords_pending. }
  split; [done|]. split; [|split; [|apply newRecords_timestamps]].
  - rewrite <- Hget. unfold getPendingMessages, restart, constructor, browser_of.
    by rewrite Hls'.
  - unfold newRecords. apply Forall_fmap, Forall_true.
    by intros [[[now_id random] now] message].
Qed.

Lemma fallback_listing_after_restart_witness :
  getPendingMessages (restart false ls_three) = Ok (newRecords three_calls).
Proof.
  exact (proj1 (proj2
    (fallback_listing_after_restart three_calls (constructor false fresh_browser) eq_refl))).
Defined.

(** X7.  Storing a message whose id is already stored: the object store
    refuses it with a [ConstraintError] (the index on [messageId] is unique)
    and nothing changes; the LocalStorage fallback has no such check and
    stores a second record with the same id. *)
Theorem store_duplicate_id now_id random now message st :
  ready st ->
  messageId (newRecord now_id random now message) ∈ messageId <$> records st ->
  let r := storeMessage now_id random now message st in
  if useLocalStorage st
  then r.1 = Ok (VString (messageId (newRecord now_id random now message)))
       /\ records r.2 = records st ++ [newRecord now_id random now message]
  else r = (Throw ConstraintError, st).
Proof.
  intros Hready Hin. unfold storeMessage, records in *.
  destruct (useLocalStorage st) eqn:Hls; simpl.
  - rewrite Hls. split; reflexivity.
  - destruct Hready as [?|Hdb]; [congruence|].
    unfold storeInIndexedDB, transaction, add. rewrite Hdb.
    replace (violates_unique _ _ _) with true; [done|].
    symmetry. unfold violates_unique. simpl. rewrite !orb_false_r.
    apply list_elem_of_fmap in Hin as (x & Hx & Hin).
    apply existsb_exists. exists x. split; [by apply list_elem_of_In|].
    rewrite <- Hx. apply String.eqb_refl.
Qed.

Lemma store_duplicate_id_witness :
  storeMessage 9000 "0.9" 9000 msg2 idb_three = (Throw ConstraintError, idb_three)
  /\ records (storeMessage 9000 "0.9" 9000 msg2 ls_three).2
     = records ls_three ++ [newRecord 9000 "0.9" 9000 msg2].
Proof.
  split.
  - exact (store_duplicate_id 9000 "0.9" 9000 msg2 idb_three
             (or_intror eq_refl) ltac:(compute_done)).
  - exact (proj2 (store_duplicate_id 9000 "0.9" 9000 msg2 ls_three
                    (or_introl eq_refl) ltac:(compute_done))).
Defined.

(** X8.  A service on the IndexedDB backend whose database is not open, not
    yet ([db] is still [null]) or no more (after [destroy]), rejects every
    operation, with a [TypeError] in the first case and an
    [InvalidStateError] in the second, and leaves what is stored untouched;
    [destroy] itself deletes nothing. *)
Theorem closed_database_rejects st :
  useLocalStorage st = false ->
  db st <> OpenDb ->
  let e := match db st with NoDb => TypeError | _ => InvalidStateError end in
  (forall now_id random now message,
     storeMessage now_id random now message st = (Throw e, st))
  /\ getPendingMessages st = Throw e
  /\ (forall now mid, markAsSynced now mid st = (Throw e, st))
  /\ clearSyncedMessages st = (Throw e, st)
  /\ getStats st = Throw e
  /\ browser_of (destroy st) = browser_of st.
Proof.
  intros Hls Hdb.
  unfold storeMessage, storeInIndexedDB, getPendingMessages, getIndexedDBMessages,
    markAsSynced, markSyncedInIndexedDB, clearSyncedMessages, clearSyncedFromIndexedDB,
    getStats, getPendingMessages, getIndexedDBMessages, transaction.
  rewrite Hls. by destruct (db st).
Qed.

Lemma closed_database_rejects_witness :
  getPendingMessages (destroy idb_three) = Throw InvalidStateError
  /\ markAsSynced 5000 "A-1000" (destroy idb_three)
     = (Throw InvalidStateError, destroy idb_three).
Proof.
  pose proof (closed_database_rejects (destroy idb_three) eq_refl ltac:(done))
    as (_ & H2 & H3 & _).
  exact (conj H2 (H3 5000 "A-1000"%string)).
Defined.

Lemma filter_pending_mark_if_id now mid rs :
  filter (fun r => synced r = false) (mark_if now mid <$> rs)
  = filter (fun r => messageId r <> mid) (filter (fun r => synced r = false) rs).
Proof.
  induction rs as [|x l IH]; [done|].
  rewrite fmap_cons, !filter_cons, IH. unfold mark_if.
  destruct (String.eqb_spec (messageId x) mid) as [He|Hne]; simpl.
  - destruct (decide (synced x = false)); [|done].
    by rewrite filter_cons, decide_False by (intros H; by apply H).
  - destruct (decide (synced x = false)); [|done].
    by rewrite filter_cons, decide_True.
Qed.

(** X9.  After [markAsSynced(id)] the listing of pending records is the
    previous listing without the records of that id, the others in their
    order, and [getStats] counts what is left. *)
Theorem markAsSynced_unlists now mid st pending :
  ready st -> wf st ->
  getPendingMessages st = Ok pending ->
  let st' := (markAsSynced now mid st).2 in
  getPendingMessages st' = Ok (filter (fun r => messageId r <> mid) pending)
  /\ pendingCount <$> (match getStats st' with Ok stats => Some stats | Throw _ => None end)
     = Some (length (filter (fun r => messageId r <> mid) pending)).
Proof.
  intros Hready Hwf Hget st'.
  destruct (markAsSynced_spec now mid st Hready Hwf)
    as (_ & Hrec & Hls & Hdb & _ & _ & Hbk). fold st' in Hrec, Hls, Hdb, Hbk.
  assert (ready st') as Hready' by (unfold ready; by rewrite Hls, Hdb).
  assert (lists st' = lists st) as Hlists by (unfold lists; by rewrite Hls, Hbk).
  rewrite (getPendingMessages_ready _ Hready) in Hget. injection Hget as <-.
  assert (getPendingMessages st'
          = Ok (filter (fun r => messageId r <> mid)
                  (if lists st then filter (fun r => synced r = false) (records st) else [])))
    as Hget'.
  { rewrite (getPendingMessages_ready _ Hready'), Hlists, Hrec.
    destruct (lists st); [|done]. by rewrite filter_pending_mark_if_id. }
  split; [done|]. unfold getStats. by rewrite Hget'.
Qed.

Lemma markAsSynced_unlists_witness :
  messageId <$> match getPendingMessages (markAsSynced 5000 "A-2000" ls_three).2 with
                | Ok pending => pending
                | Throw _ => []
                end = ["A-1000"; "A-3000"]%string.
Proof.
  rewrite (proj1 (markAsSynced_unlists 5000 "A-2000" ls_three (newRecords three_calls)
                    (or_introl eq_refl) (storeAll_wf three_calls _ (wf_fresh false))
                    eq_refl)).
  reflexivity.
Defined.

(** X10.  Compaction is invisible to the readers and idempotent: the
    listing of pending records and the statistics are the same before and
    after [clearSyncedMessages], and a second compaction right after the
    first changes no stored record. *)
Theorem compaction_invisible st :
  wf st ->
  let st' := (clearSyncedMessages st).2 in
  getPendingMessages st' = getPendingMessages st
  /\ getStats st' = getStats st
  /\ records (clearSyncedMessages st').2 = records st'.
Proof.
  intros Hwf st'.
  destruct (clearSyncedMessages_spec st Hwf) as (Hls & Hdb & Hbk & Hwf' & _ & Hr & Hn).
  fold st' in Hls, Hdb, Hbk, Hwf', Hr, Hn.
  destruct (decide (ready st)) as [Hready|Hnot].
  2:{ specialize (Hn Hnot). unfold st' in *. by rewrite !Hn. }
  destruct (Hr Hready) as [_ Hrec].
  assert (ready st') as Hready' by (unfold ready; by rewrite Hls, Hdb).
  assert (lists st' = lists st) as Hlists by (unfold lists; by rewrite Hls, Hbk).
  assert (getPendingMessages st' = getPendingMessages st) as Hget.
  { rewrite (getPendingMessages_ready _ Hready), (getPendingMessages_ready _ Hready').
    rewrite Hlists, Hrec. destruct (lists st); [|done]. by rewrite filter_filter_pending. }
  split; [done|]. split; [unfold getStats; by rewrite Hget, Hls|].
  destruct (clearSyncedMessages_spec st' Hwf') as (_ & _ & _ & _ & _ & Hr' & _).
  destruct (Hr' Hready') as [_ ->]. rewrite Hlists, Hrec.
  destruct (lists st); [|done]. by rewrite filter_filter_pending.
Qed.

Lemma compaction_invisible_witness :
  let st := (markAsSynced 5000 "A-2000" ls_three).2 in
  getPendingMessages (clearSyncedMessages st).2 = getPendingMessages st
  /\ length (records (clearSyncedMessages st).2) = 2%nat.
Proof.
  split; [|reflexivity].
  exact (proj1 (compaction_invisible (markAsSynced 5000 "A-2000" ls_three).2
                  ltac:(compute_done))).
Defined.

Lemma storeAll_indexedDB calls st :
  useLocalStorage st = false ->
  useLocalStorage (storeAll calls st) = false
  /\ google_sos_pending (storeAll calls st) = google_sos_pending st.
Proof.
  revert st. induction calls as [|[[[now_id random] now] message] calls IH]; intros st Hls;
    [done|].
  change (storeAll ((now_id, random, now, message) :: calls) st)
    with (storeAll calls (storeMessage now_id random now message st).2).
  assert (useLocalStorage (storeMessage now_id random now message st).2 = false
          /\ google_sos_pending (storeMessage now_id random now message st).2
             = google_sos_pending st) as [Hls' Hitem].
  { unfold storeMessage, storeInIndexedDB, add. rewrite Hls.
    destruct (transaction st); [|done]. by destruct (violates_unique _ _ _). }
  destruct (IH _ Hls') as [-> ->]. by split.
Qed.

(** X11.  The fallback does not migrate: records enqueued while the service
    used IndexedDB are not listed after a restart that falls back to
    LocalStorage; the listing is what the LocalStorage item held before. *)
Theorem fallback_does_not_migrate calls st :
  useLocalStorage st = false ->
  getPendingMessages (restart false (storeAll calls st))
  = Ok (filter (fun r => synced r = false) (getLocalStorageMessages st)).
Proof.
  intros Hls. destruct (storeAll_indexedDB calls st Hls) as [_ Hitem].
  unfold getPendingMessages, restart, constructor, browser_of, getLocalStorageMessages.
  simpl. by rewrite Hitem.
Qed.

Lemma fallback_does_not_migrate_witness :
  length (rows (objectStore (restart false idb_three))) = 3%nat
  /\ getPendingMessages (restart false idb_three) = Ok [].
Proof.
  split; [reflexivity|].
  exact (fallback_does_not_migrate three_calls (constructor true fresh_browser) eq_refl).
Defined.

End OutboxMoreProperties.

(* ===================================================================== *)
(** * More properties of the sync manager *)
(* ===================================================================== *)

Section SyncMoreProperties.

Import Outbox OutboxOps Sync SyncRuns AppUI Samples.

Implicit Types (w : World) (env : Env) (st : Storage) (r : StoredRecord)
  (rs messages pending : list StoredRecord) (marks : list (Z * string)).

Lemma progress_events_S from n total :
  progress_events from (S n) total
  = SyncProgress (S from) total :: progress_events (S from) n total.
Proof.
  unfold progress_events. simpl. rewrite Nat.add_1_r. f_equal.
  rewrite <- fmap_S_seq, <- list_fmap_compose. apply list_fmap_ext.
  intros _ i _. simpl. f_equal. lia.
Qed.

(** What the loop tells the listeners: one [sync_progress] per marked
    record, numbered consecutively. *)
Lemma syncLoop_notified env total k messages counts w :
  ready (offlineStorage w) -> wf (offlineStorage w) ->
  let w' := (syncLoop env total k messages counts w).2 in
  notified w' = notified w
                ++ progress_events counts.1 (length (marks_of env k messages)) total
  /\ isOnline w' = isOnline w /\ isSyncing w' = isSyncing w.
Proof.
  revert k counts w. induction messages as [|r rest IH]; intros k [synced failed] w Hready Hwf.
  - simpl. by rewrite app_nil_r.
  - simpl. unfold mbind, M_bind. unfold syncOne, try_catch, mbind, M_bind, mret, M_ret.
    rewrite uploadMessage_spec.
    destruct (upload_ok env k r) eqn:Hok.
    + unfold storage_call.
      destruct (markAsSynced_spec (clock env k) (messageId r) _ Hready Hwf)
        as (Hres & _ & Hls & Hdb & Hwf' & _).
      destruct (markAsSynced (clock env k) (messageId r) (offlineStorage w)) as [res st'].
      simpl in Hres, Hls, Hdb, Hwf'. subst res. simpl.
      assert (ready st') as Hready' by (unfold ready; by rewrite Hls, Hdb).
      match goal with
      | |- context [syncLoop env total (S k) rest ?c ?w1] =>
          destruct (IH (S k) c w1 Hready' Hwf') as (-> & -> & ->)
      end.
      simpl. by rewrite progress_events_S, <- app_assoc.
    + simpl. by destruct (IH (S k) (synced, S failed) w Hready Hwf) as (-> & -> & ->).
Qed.

Lemma marks_of_elem env k messages mid :
  mid ∈ (marks_of env k messages).*2 <->
  exists j r, messages !! j = Some r /\ upload_ok env (k + j) r = true /\ messageId r = mid.
Proof.
  revert k. induction messages as [|x rest IH]; intros k.
  - simpl. split; [by intros ?%elem_of_nil|]. by intros (j & r & ? & _).
  - simpl. rewrite fmap_app, elem_of_app, IH. split.
    + intros [Hx|(j & r & Hj & Hok & Hid)].
      * destruct (upload_ok env k x) eqn:Hok; [|by apply elem_of_nil in Hx].
        apply list_elem_of_singleton in Hx. exists 0%nat, x.
        by rewrite Nat.add_0_r.
      * exists (S j), r. split; [done|]. split; [|done].
        by replace (k + S j)%nat with (S k + j)%nat by lia.
    + intros ([|j] & r & Hj & Hok & Hid).
      * left. simpl in Hj. injection Hj as ->. rewrite Nat.add_0_r in Hok.
        rewrite Hok. simpl. rewrite Hid. apply list_elem_of_here.
      * right. exists j, r. split; [done|]. split; [|done].
        by replace (S k + j)%nat with (k + S j)%nat by lia.
Qed.

(** A whole pass over a non-empty listing. *)
Lemma sync_pass_run env w pending :
  isOnline w = true -> isSyncing w = false ->
  wf (offlineStorage w) ->
  getPendingMessages (offlineStorage w) = Ok pending ->
  pending <> [] ->
  exists st2,
    syncPendingMessages env w
    = (Ok tt,
       {| isOnline := true; isSyncing := false; offlineStorage := st2;
          notified :=
            (notified w ++ [SyncStart]
               ++ progress_events 0 (length (marks_of env 0 pending)) (length pending))
              ++ [SyncComplete (length (marks_of env 0 pending))
                    (length pending - length (marks_of env 0 pending))] |})
    /\ getPendingMessages st2
       = Ok (filter (fun x => messageId x ∉ (marks_of env 0 pending).*2) pending)
    /\ records st2 = filter (fun x => messageId x ∉ (marks_of env 0 pending).*2) pending
    /\ wf st2.
Proof.
  intros Hon Hsy Hwf Hget Hne.
  destruct (getPendingMessages_ok _ _ Hget) as [Hready Hpend].
  destruct (lists (offlineStorage w)) eqn:Hlists; [|by subst].
  destruct (syncLoop_records env (length pending) 0 pending (0%nat, 0%nat) (started w)
              Hready Hwf)
    as (w1 & Hloop & Hrec1 & Hready1 & Hwf1 & Hlists1).
  destruct (syncLoop_notified env (length pending) 0 pending (0%nat, 0%nat) (started w)
              Hready Hwf) as (Hn1 & Hon1 & _).
  rewrite Hloop in Hn1, Hon1.
  cbn [fst snd started offlineStorage notified isOnline] in Hloop, Hrec1, Hlists1, Hn1, Hon1.
  rewrite Hlists in Hlists1. rewrite Hon in Hon1.
  destruct (clearSyncedMessages_spec _ Hwf1)
    as (Hls2 & Hdb2 & Hbk2 & Hwf2 & _ & Hclear & _).
  destruct (Hclear Hready1) as [Hres2 Hrec2]. rewrite Hlists1 in Hrec2.
  destruct (clearSyncedMessages (offlineStorage w1)) as [res2 st2] eqn:Hc.
  cbn [fst snd] in Hls2, Hdb2, Hbk2, Hwf2, Hres2, Hrec2. subst res2.
  assert (records st2
          = filter (fun x => messageId x ∉ (marks_of env 0 pending).*2) pending) as Hrec.
  2:{ exists st2. split; [|split; [|done]].
      - rewrite (syncPendingMessages_unfold env w Hon Hsy), Hget.
        replace (Nat.eqb (length pending) 0) with false
          by (symmetry; apply Nat.eqb_neq; by destruct pending).
        unfold loop_of. rewrite Hloop, Hc. cbn [fst snd].
        by rewrite Hn1, Hon1, <- !app_assoc.
      - rewrite getPendingMessages_ready by (unfold ready; by rewrite Hls2, Hdb2).
        replace (lists st2) with true
          by (rewrite <- Hlists1; unfold lists; by rewrite Hls2, Hbk2).
        rewrite Hrec2, filter_filter_pending, <- Hrec2. by f_equal. }
  - rewrite Hrec2, Hrec1.
    transitivity (filter (fun x => synced x = false /\ messageId x ∉ @nil string)
                    (apply_marks (marks_of env 0 pending) (records (offlineStorage w)))).
    { apply list_filter_iff. intros x. split; [intros ?; split; [done|apply not_elem_of_nil]|tauto]. }
    rewrite filter_pending_apply_marks, app_nil_r, Hpend, list_filter_filter.
    apply list_filter_iff. intros x. rewrite elem_of_reverse. tauto.
Qed.

(** X12.  After a pass over a non-empty listing, the records still pending
    are those of the batch whose [messageId] was not marked, in their order.
    An id is marked when the upload of some record of the batch with that id
    succeeded.  So a record whose upload succeeded is never listed again,
    and when the ids of the batch are distinct a record is listed again
    exactly when its own upload failed. *)
Theorem sync_pass_listing env w pending :
  isOnline w = true -> isSyncing w = false ->
  wf (offlineStorage w) ->
  getPendingMessages (offlineStorage w) = Ok pending ->
  pending <> [] ->
  exists after,
    getPendingMessages (offlineStorage (syncPendingMessages env w).2) = Ok after
    /\ after = filter (fun x => messageId x ∉ (marks_of env 0 pending).*2) pending
    /\ (forall j r, pending !! j = Some r -> upload_ok env j r = true -> r ∉ after)
    /\ (NoDup (messageId <$> pending) ->
        forall j r, pending !! j = Some r -> (r ∈ after <-> upload_ok env j r = false)).
Proof.
  intros Hon Hsy Hwf Hget Hne.
  destruct (sync_pass_run env w pending Hon Hsy Hwf Hget Hne) as (st2 & -> & Hafter & _ & _).
  eexists. split; [exact Hafter|]. split; [done|]. split.
  - intros j r Hj Hok [Hn _]%list_elem_of_filter. apply Hn.
    apply marks_of_elem. by exists j, r.
  - intros Hnd j r Hj. rewrite list_elem_of_filter, marks_of_elem. split.
    + intros [Hn _]. destruct (upload_ok env j r) eqn:Hok; [|done].
      destruct Hn. by exists j, r.
    + intros Hfail. split; [|by eapply list_elem_of_lookup_2].
      intros (j' & r' & Hj' & Hok & Hid). simpl in Hok.
      assert (j' = j) as ->; [|congruence].
      eapply NoDup_lookup; [exact Hnd| |].
      * by rewrite list_lookup_fmap, Hj'.
      * rewrite list_lookup_fmap, Hj. simpl. by rewrite Hid.
Qed.

Lemma sync_pass_listing_witness :
  getPendingMessages
    (offlineStorage (syncPendingMessages (fails_at 1) (Sync.constructor true ls_three)).2)
  = Ok (filter (fun x => messageId x ∉ (marks_of (fails_at 1) 0 (newRecords three_calls)).*2)
          (newRecords three_calls)).
Proof.
  destruct (sync_pass_listing (fails_at 1) (Sync.constructor true ls_three)
              (newRecords three_calls) eq_refl eq_refl
              (storeAll_wf three_calls _ (wf_fresh false)) eq_refl ltac:(done))
    as (after & H1 & H2 & _).
  rewrite H1. f_equal. exact H2.
Defined.

(** X13.  What the listeners of a pass over a non-empty listing are told,
    in order: [sync_start]; one [sync_progress] for each record that was
    uploaded and marked, numbered 1, 2, ... and carrying the size of the
    batch; then [sync_complete] with the number of marked records and the
    number of the others.  The pass returns normally, online and idle. *)
Theorem sync_pass_events env w pending :
  isOnline w = true -> isSyncing w = false ->
  wf (offlineStorage w) ->
  getPendingMessages (offlineStorage w) = Ok pending ->
  pending <> [] ->
  let res := syncPendingMessages env w in
  let synced := length (marks_of env 0 pending) in
  res.1 = Ok tt /\ isOnline res.2 = true /\ isSyncing res.2 = false
  /\ (synced <= length pending)%nat
  /\ notified res.2
     = notified w ++ [SyncStart]
         ++ ((fun i => SyncProgress (S i) (length pending)) <$> seq 0 synced)
         ++ [SyncComplete synced (length pending - synced)].
Proof.
  intros Hon Hsy Hwf Hget Hne.
  destruct (sync_pass_run env w pending Hon Hsy Hwf Hget Hne) as (st2 & -> & _ & _ & _).
  cbn [fst snd isOnline isSyncing notified].
  split; [done|]. split; [done|]. split; [done|]. split; [apply marks_of_length|].
  by rewrite <- !app_assoc.
Qed.

Lemma sync_pass_events_witness :
  notified (syncPendingMessages (fails_at 1) (Sync.constructor true ls_three)).2
  = [SyncStart; SyncProgress 1 3; SyncProgress 2 3; SyncComplete 2 1].
Proof.
  exact (proj2 (proj2 (proj2 (proj2
    (sync_pass_events (fails_at 1) (Sync.constructor true ls_three)
       (newRecords three_calls) eq_refl eq_refl
       (storeAll_wf three_calls _ (wf_fresh false)) eq_refl ltac:(done)))))).
Defined.

(** X14.  A record of a type [uploadMessage] does not know is counted as
    synced and deleted by the pass although nothing was written to the
    remote database for it, whether the remote database accepts writes or
    not: after the pass no stored record has its [messageId]. *)
Theorem unknown_type_dropped env w pending j r :
  isOnline w = true -> isSyncing w = false ->
  wf (offlineStorage w) ->
  getPendingMessages (offlineStorage w) = Ok pending ->
  pending !! j = Some r ->
  type r <> "SOS_BROADCAST"%string -> type r <> "CHAT_BROADCAST"%string ->
  let res := syncPendingMessages env w in
  uploadMessage (remote_ok env j) r = mret tt
  /\ messageId r ∈ (marks_of env 0 pending).*2
  /\ (forall x, x ∈ records (offlineStorage res.2) -> messageId x <> messageId r)
  /\ exists after,
       getPendingMessages (offlineStorage res.2) = Ok after /\ r ∉ after.
Proof.
  intros Hon Hsy Hwf Hget Hj Hsos Hchat res.
  assert (pending <> []) as Hne by (intros ->; by rewrite lookup_nil in Hj).
  apply String.eqb_neq in Hsos, Hchat.
  assert (messageId r ∈ (marks_of env 0 pending).*2) as Hmarked.
  { apply marks_of_elem. exists j, r. split; [done|]. split; [|done].
    unfold upload_ok. rewrite Hsos, Hchat. simpl. by rewrite orb_true_r. }
  destruct (sync_pass_run env w pending Hon Hsy Hwf Hget Hne)
    as (st2 & Hrun & Hafter & Hrec & _).
  unfold res. rewrite Hrun. cbn [snd offlineStorage]. split_and!.
  - unfold uploadMessage. by rewrite Hsos, Hchat.
  - done.
  - rewrite Hrec. intros x [Hx _]%list_elem_of_filter Heq. by rewrite Heq in Hx.
  - eexists. split; [exact Hafter|]. by intros [Hx _]%list_elem_of_filter.
Qed.

Lemma unknown_type_dropped_witness :
  (messageId <$> records ls_with_ping) = ["A-1000"; "A-2500"; "A-3000"]%string
  /\ forall x,
       x ∈ records (offlineStorage
                      (syncPendingMessages (fails_at 1)
                         (Sync.constructor true ls_with_ping)).2) ->
       messageId x <> "A-2500"%string.
Proof.
  split; [reflexivity|].
  exact (proj1 (proj2 (proj2
    (unknown_type_dropped (fails_at 1) (Sync.constructor true ls_with_ping)
       (newRecords calls_with_ping) 1 (newRecord 2500 "0.25" 2500 msg_ping)
       eq_refl eq_refl (storeAll_wf calls_with_ping _ (wf_fresh false)) eq_refl eq_refl
       ltac:(done) ltac:(done))))).
Defined.

(** A pass awaited at once is its beginning followed by its rest. *)
Lemma syncPendingMessages_split env w :
  syncPendingMessages env w
  = match syncPendingMessages_begin w with
    | (Ok (Some listing), w') => syncPendingMessages_resume env listing w'
    | (Ok None, w') => (Ok tt, w')
    | (Throw e, w') => (Throw e, w')
    end.
Proof.
  unfold syncPendingMessages, syncPendingMessages_begin.
  destruct (negb (isOnline w)); [done|]. destruct (isSyncing w); [done|].
  unfold syncPendingMessages_resume, mbind, M_bind, set_isSyncing, notifyListeners,
    try_finally, try_catch, storage_read, storage_call.
  cbn [offlineStorage isOnline isSyncing notified].
  by destruct (getPendingMessages (offlineStorage w)).
Qed.

(** X15.  [checkAndSync] first takes the browser's word for connectivity.
    Offline, or while a pass is running, it does nothing more.  Otherwise it
    asks for the statistics: if that fails the call fails and nobody is
    notified; if nothing is pending it returns without a word (unlike
    [syncPendingMessages], which would have announced [sync_start]).  If
    something is pending it starts a pass without waiting for it: when
    [checkAndSync] returns, the flag is set and only [sync_start] has been
    announced.  While that pass is in flight another [checkAndSync] or
    [syncPendingMessages] starts nothing; and when the pass goes on with
    nothing in between it is the pass [syncPendingMessages] makes, which
    clears the flag and ends with [sync_complete]. *)
Theorem checkAndSync_spec navigator_onLine env w :
  wf (offlineStorage w) ->
  let res := checkAndSync navigator_onLine w in
  let w0 := {| isOnline := navigator_onLine; isSyncing := isSyncing w;
               offlineStorage := offlineStorage w; notified := notified w |} in
  if navigator_onLine && negb (isSyncing w) then
    match getPendingMessages (offlineStorage w) with
    | Throw e => res = (Throw e, w0)
    | Ok [] => res = (Ok None, w0)
    | Ok pending =>
        let synced := length (marks_of env 0 pending) in
        let fin := syncPendingMessages_resume env (Ok pending) res.2 in
        res = (Ok (Some (Ok pending)),
               {| isOnline := true; isSyncing := true;
                  offlineStorage := offlineStorage w;
                  notified := notified w ++ [SyncStart] |})
        /\ (forall online,
              checkAndSync online res.2
              = (Ok None,
                 {| isOnline := online; isSyncing := true;
                    offlineStorage := offlineStorage w;
                    notified := notified w ++ [SyncStart] |}))
        /\ syncPendingMessages env res.2 = (Ok tt, res.2)
        /\ fin = syncPendingMessages env w0
        /\ fin.1 = Ok tt /\ isOnline fin.2 = true /\ isSyncing fin.2 = false
        /\ notified fin.2
           = notified w ++ [SyncStart] ++ progress_events 0 synced (length pending)
               ++ [SyncComplete synced (length pending - synced)]
    end
  else res = (Ok None, w0).
Proof.
  intros Hwf res w0.
  assert (res = (if isOnline w0 && negb (isSyncing w0) then
                   match getPendingMessages (offlineStorage w) with
                   | Throw e => (Throw e, w0)
                   | Ok pending =>
                       if Nat.ltb 0 (length pending) then syncPendingMessages_begin w0
                       else (Ok None, w0)
                   end
                 else (Ok None, w0))) as Hres.
  { unfold res, checkAndSync, mbind, M_bind, set_isOnline. fold w0.
    destruct (isOnline w0 && negb (isSyncing w0)); [|done].
    unfold storage_read, storage_call, getStats. cbn [offlineStorage w0].
    destruct (getPendingMessages (offlineStorage w)) as [pending|e]; [|done].
    cbn [pendingCount]. destruct (Nat.ltb 0 (length pending)); [|done].
    by destruct w. }
  cbn [isOnline isSyncing w0] in Hres.
  destruct (navigator_onLine && negb (isSyncing w)) eqn:Hgo; [|done].
  apply andb_prop in Hgo as [-> Hidle]. apply negb_true_iff in Hidle.
  destruct (getPendingMessages (offlineStorage w)) as [[|m ms]|e] eqn:Hget; [done| |done].
  cbn [length Nat.ltb Nat.leb] in Hres.
  assert (syncPendingMessages_begin w0
          = (Ok (Some (Ok (m :: ms))),
             {| isOnline := true; isSyncing := true; offlineStorage := offlineStorage w;
                notified := notified w ++ [SyncStart] |})) as Hbegin.
  { unfold syncPendingMessages_begin, mbind, M_bind, set_isSyncing, notifyListeners.
    cbn [isOnline isSyncing offlineStorage notified w0 negb]. by rewrite Hidle, Hget. }
  rewrite Hbegin in Hres. cbv zeta. rewrite Hres. cbn [fst snd].
  split; [done|]. split.
  { intros online. unfold checkAndSync, mbind, M_bind, set_isOnline.
    cbn [isOnline isSyncing offlineStorage notified negb]. by rewrite andb_false_r. }
  split.
  { unfold syncPendingMessages. cbn [isOnline isSyncing negb]. done. }
  assert (syncPendingMessages_resume env (Ok (m :: ms))
            {| isOnline := true; isSyncing := true; offlineStorage := offlineStorage w;
               notified := notified w ++ [SyncStart] |}
          = syncPendingMessages env w0) as ->.
  { by rewrite (syncPendingMessages_split env w0), Hbegin. }
  split; [done|].
  destruct (sync_pass_run env w0 (m :: ms) eq_refl Hidle Hwf Hget ltac:(done))
    as (st2 & -> & _).
  cbn [fst snd isOnline isSyncing notified w0]. by rewrite <- !app_assoc.
Qed.

Lemma checkAndSync_spec_witness :
  checkAndSync true (Sync.constructor false (Outbox.constructor false fresh_browser))
  = (Ok None, Sync.constructor true (Outbox.constructor false fresh_browser))
  /\ (let res := checkAndSync true (Sync.constructor false ls_three) in
      isSyncing res.2 = true /\ notified res.2 = [SyncStart]
      /\ notified (syncPendingMessages_resume (fails_at 1) (Ok (newRecords three_calls)) res.2).2
         = [SyncStart; SyncProgress 1 3; SyncProgress 2 3; SyncComplete 2 1]).
Proof.
  split.
  - exact (checkAndSync_spec true (fails_at 1)
             (Sync.constructor false (Outbox.constructor false fresh_browser))
             (wf_fresh false)).
  - destruct (checkAndSync_spec true (fails_at 1) (Sync.constructor false ls_three)
                (storeAll_wf three_calls _ (wf_fresh false)))
      as (Hres & _ & _ & _ & _ & _ & _ & Hn).
    cbv zeta. rewrite Hres in Hn |- *. split; [done|]. split; [done|]. exact Hn.
Defined.

Lemma listen_app events1 events2 ui :
  listen (events1 ++ events2) ui = listen events2 (listen events1 ui).
Proof. apply foldl_app. Qed.

Lemma listen_progress from n total ui :
  listen (progress_events from n total) ui = ui.
Proof.
  unfold progress_events. induction (seq 0 n) as [|i l IH]; [done|]. exact IH.
Qed.

(** X16.  What the app shows after a pass, [handleSyncEvent] having been
    told the pass's notifications in order.  When records were pending
    the indicator is switched off by [sync_complete], and the counter, set to
    0 there, becomes the number of records still listed once
    [updateStorageStats] has read the statistics.  When nothing was pending,
    or the listing failed, the indicator switched on by [sync_start] stays
    on: the pass ends without a [sync_complete]. *)
Theorem indicator_after_pass env w ui :
  isOnline w = true -> isSyncing w = false ->
  wf (offlineStorage w) ->
  let res := syncPendingMessages env w in
  let ui' := listen (drop (length (notified w)) (notified res.2)) ui in
  online ui' = online ui
  /\ match getPendingMessages (offlineStorage w) with
     | Ok (m :: ms) =>
         let after := filter (fun x => messageId x ∉ (marks_of env 0 (m :: ms)).*2) (m :: ms) in
         syncStatus ui' = {| syncing := false; pending := 0 |}
         /\ syncStatus (updateStorageStats (offlineStorage res.2) ui')
            = {| syncing := false; pending := length after |}
     | _ =>
         syncStatus ui' = {| syncing := true; pending := pending (syncStatus ui) |}
         /\ isSyncing res.2 = false
     end.
Proof.
  intros Hon Hsy Hwf res ui'. unfold ui', res.
  destruct (getPendingMessages (offlineStorage w)) as [[|m ms]|e] eqn:Hget.
  - rewrite (syncPendingMessages_unfold env w Hon Hsy), Hget.
    cbn [length Nat.eqb snd notified isSyncing]. by rewrite drop_app_length.
  - destruct (sync_pass_run env w (m :: ms) Hon Hsy Hwf Hget ltac:(done))
      as (st2 & -> & Hafter & _).
    cbn [snd notified offlineStorage].
    rewrite <- !app_assoc, drop_app_length, !listen_app, listen_progress.
    unfold updateStorageStats, getStats. rewrite Hafter. done.
  - rewrite (syncPendingMessages_unfold env w Hon Hsy), Hget.
    cbn [snd notified isSyncing]. by rewrite drop_app_length.
Qed.

Lemma indicator_after_pass_witness :
  let w := Sync.constructor true (Outbox.constructor false fresh_browser) in
  let ui := {| syncStatus := {| syncing := false; pending := 0 |}; online := true |} in
  syncing (syncStatus
             (listen (drop (length (notified w))
                        (notified (syncPendingMessages (fails_at 1) w).2)) ui)) = true
  /\ isSyncing (syncPendingMessages (fails_at 1) w).2 = false.
Proof.
  intros w ui.
  destruct (indicator_after_pass (fails_at 1) w ui eq_refl eq_refl (wf_fresh false))
    as [_ [H1 H2]].
  split; [|exact H2]. cbv zeta in H1. fold w in H1. by rewrite H1.
Defined.

End SyncMoreProperties.

(* ===================================================================== *)
(** * More properties of the dispatcher *)
(* ===================================================================== *)

Section GeminiMoreProperties.

Import Gemini GeminiRuns.

Implicit Types (responses : nat -> Response) (q : Queue) (job : Job)
  (calls : list (Call * (nat -> Response))) (effects : list Effect).

Lemma resolved_requests (steps : list Step) :
  resolved (Request <$> steps) = [] /\ rejected (Request <$> steps) = []
  /\ timers (Request <$> steps) = [].
Proof. induction steps as [|s steps IH]; [done|]. exact IH. Qed.

Lemma resolved_app effects1 effects2 :
  resolved (effects1 ++ effects2) = resolved effects1 ++ resolved effects2.
Proof. apply omap_app. Qed.

Lemma rejected_app effects1 effects2 :
  rejected (effects1 ++ effects2) = rejected effects1 ++ rejected effects2.
Proof. apply omap_app. Qed.

Lemma timers_app effects1 effects2 :
  timers (effects1 ++ effects2) = timers effects1 ++ timers effects2.
Proof. apply omap_app. Qed.

(** One start of [processQueue]: either nothing happens, or the job at the
    head leaves the queue, its promise is resolved and the timer is set. *)
Lemma processQueue_step responses q :
  let res := processQueue responses q in
  resolved res.2 ++ (promise <$> requestQueue res.1) = promise <$> requestQueue q
  /\ rejected res.2 = []
  /\ timers res.2 = ((fun _ => 4000) <$> resolved res.2)
  /\ (length (resolved res.2) <= 1)%nat
  /\ (isProcessingQueue q = true -> res = (q, [])).
Proof.
  unfold processQueue. destruct (isProcessingQueue q).
  { simpl. split_and!; try done. lia. }
  destruct (requestQueue q) as [|job rest] eqn:Hq.
  { simpl. rewrite Hq. split_and!; try done. lia. }
  destruct (performGeminiRequest responses (sosData job)) as [[result|e] steps];
    cbn [fst snd requestQueue];
    destruct (resolved_requests steps) as (Hr & Hj & Ht);
    unfold resolved, rejected, timers in *; rewrite !omap_app, Hr, Hj, Ht;
    simpl; split_and!; try done; lia.
Qed.

Lemma dispatch_step c responses q :
  let res := dispatch c responses q in
  resolved res.2 ++ (promise <$> requestQueue res.1)
  = (promise <$> requestQueue q) ++ submitted [(c, responses)]
  /\ rejected res.2 = []
  /\ timers res.2 = ((fun _ => 4000) <$> resolved res.2).
Proof.
  destruct c as [job|]; cbn [dispatch].
  - unfold analyzeSOSWithGemini.
    match goal with |- context [processQueue responses ?q0] =>
      destruct (processQueue_step responses q0) as (H1 & H2 & H3 & _) end.
    cbn [requestQueue] in H1. rewrite fmap_app in H1. done.
  - unfold timer_fires.
    match goal with |- context [processQueue responses ?q0] =>
      destruct (processQueue_step responses q0) as (H1 & H2 & H3 & _) end.
    cbn [requestQueue] in H1. unfold submitted. simpl. by rewrite app_nil_r.
Qed.

Lemma drive_cons c responses calls q :
  drive ((c, responses) :: calls) q
  = ((drive calls (dispatch c responses q).1).1,
     (dispatch c responses q).2 ++ (drive calls (dispatch c responses q).1).2).
Proof.
  cbn [drive]. destruct (dispatch c responses q) as [q1 e1]. cbn [fst snd].
  by destruct (drive calls q1).
Qed.

Lemma drive_app calls1 calls2 q :
  drive (calls1 ++ calls2) q
  = ((drive calls2 (drive calls1 q).1).1,
     (drive calls1 q).2 ++ (drive calls2 (drive calls1 q).1).2).
Proof.
  revert q. induction calls1 as [|[c responses] calls1 IH]; intros q.
  - simpl. by destruct (drive calls2 q).
  - cbn [app]. rewrite !drive_cons, IH. cbn [fst snd]. by rewrite app_assoc.
Qed.

(** X17.  Whatever callers and timers do, in any order, no job is lost,
    duplicated or overtaken: the promises resolved so far followed by those
    of the jobs still queued are the promises of the jobs that were queued
    at the start followed by those submitted since, in submission order.
    No promise is ever rejected, and a 4000 ms timer is set once for every
    promise resolved. *)
Theorem queue_is_fifo calls q :
  let res := drive calls q in
  resolved res.2 ++ (promise <$> requestQueue res.1)
  = (promise <$> requestQueue q) ++ submitted calls
  /\ rejected res.2 = []
  /\ timers res.2 = ((fun _ => 4000) <$> resolved res.2).
Proof.
  revert q. induction calls as [|[c responses] calls IH]; intros q.
  - simpl. by rewrite app_nil_r.
  - cbv zeta. rewrite drive_cons. cbn [fst snd].
    destruct (dispatch_step c responses q) as (H1 & H2 & H3).
    destruct (IH (dispatch c responses q).1) as (I1 & I2 & I3).
    cbv zeta in H1, H2, H3, I1, I2, I3.
    rewrite resolved_app, rejected_app, timers_app, H2, I2, H3, I3, fmap_app.
    split; [|done].
    rewrite <- app_assoc, I1, app_assoc, H1, <- app_assoc. f_equal.
    by destruct c.
Qed.

Lemma busy_submissions (jobs : list (Job * (nat -> Response))) queue :
  drive ((fun j => (Analyze j.1, j.2)) <$> jobs)
    {| requestQueue := queue; isProcessingQueue := true |}
  = ({| requestQueue := queue ++ jobs.*1; isProcessingQueue := true |}, []).
Proof.
  revert queue. induction jobs as [|[job responses] jobs IH]; intros queue.
  - simpl. by rewrite app_nil_r.
  - cbn [fmap list_fmap fst snd]. rewrite drive_cons. cbn [dispatch].
    unfold analyzeSOSWithGemini, processQueue. cbn [isProcessingQueue requestQueue fst snd].
    change (list_fmap _ _ ?f jobs) with (f <$> jobs).
    rewrite IH. cbn [fst snd]. by rewrite <- app_assoc.
Qed.

Lemma timers_drain (rss : list (nat -> Response)) queue busy :
  length rss = S (length queue) ->
  let res := drive ((fun rs => (TimerFires, rs)) <$> rss)
               {| requestQueue := queue; isProcessingQueue := busy |} in
  res.1 = idle /\ resolved res.2 = promise <$> queue.
Proof.
  revert rss busy. induction queue as [|job rest IH]; intros rss busy Hlen.
  - destruct rss as [|rs [|]]; [done| |done]. done.
  - destruct rss as [|rs rss]; [done|]. injection Hlen as Hlen.
    cbv zeta. cbn [fmap list_fmap]. rewrite drive_cons.
    change (list_fmap _ _ ?f rss) with (f <$> rss).
    cbn [dispatch]. unfold timer_fires, processQueue.
    cbn [isProcessingQueue requestQueue].
    destruct (IH rss true Hlen) as [I1 I2]. cbv zeta in I1, I2.
    destruct (performGeminiRequest rs (sosData job)) as [[result|e] steps];
      cbn [fst snd]; rewrite I1; (split; [done|]);
      destruct (resolved_requests steps) as (Hr & _);
      unfold resolved in *; rewrite !omap_app, Hr, I2; done.
Qed.

(** X18.  From an idle, empty queue: jobs submitted one after the other
    while the first is being handled only join the queue, and then as many
    timer firings as there were jobs resolve every promise, one job per
    firing, in submission order, and leave the dispatcher idle and
    empty. *)
Theorem queue_drains (jobs : list (Job * (nat -> Response))) (rss : list (nat -> Response)) :
  length rss = length jobs ->
  let submits := (fun j => (Analyze j.1, j.2)) <$> jobs in
  let fires := (fun rs => (TimerFires, rs)) <$> rss in
  (drive submits idle).1
  = {| requestQueue := tail jobs.*1; isProcessingQueue := bool_decide (jobs <> []) |}
  /\ resolved (drive submits idle).2 = promise <$> take 1 jobs.*1
  /\ (drive (submits ++ fires) idle).1 = idle
  /\ resolved (drive (submits ++ fires) idle).2 = promise <$> jobs.*1
  /\ forall k, (k <= length rss)%nat ->
       resolved (drive (submits ++ take k fires) idle).2 = promise <$> take (S k) jobs.*1.
Proof.
  intros Hlen submits fires.
  destruct jobs as [|[job responses] jobs].
  - destruct rss; [|done]. split_and!; try done. intros k Hk. by destruct k.
  - assert (drive submits idle
            = ({| requestQueue := jobs.*1; isProcessingQueue := true |},
               (drive [(Analyze job, responses)] idle).2)
            /\ resolved (drive [(Analyze job, responses)] idle).2 = [promise job])
      as [Hsub Hres].
    { unfold submits. cbn [fmap list_fmap fst snd]. rewrite !drive_cons.
      change (list_fmap _ _ ?f jobs) with (f <$> jobs).
      cbn [dispatch drive]. unfold analyzeSOSWithGemini, processQueue, idle.
      cbn [isProcessingQueue requestQueue app].
      destruct (performGeminiRequest responses (sosData job)) as [[result|e] steps];
        cbn [fst snd]; rewrite busy_submissions; cbn [fst snd app];
        rewrite !app_nil_r; (split; [done|]);
        destruct (resolved_requests steps) as (Hr & _);
        unfold resolved in *; rewrite !omap_app, Hr; done. }
    cbn [fmap list_fmap fst snd tail take] in *. rewrite Hsub. cbn [fst snd].
    split; [done|]. split; [by rewrite Hres|].
    rewrite drive_app, Hsub. cbn [fst snd].
    destruct rss as [|rs rss]; [done|]. injection Hlen as Hlen.
    assert (length (rs :: rss) = S (length jobs.*1)) as Hlen'
      by (simpl; by rewrite length_fmap, Hlen).
    destruct (timers_drain (rs :: rss) jobs.*1 true Hlen') as [D1 D2].
    cbv zeta in D1, D2. fold fires in D1, D2.
    split; [exact D1|]. split.
    { unfold resolved in *. by rewrite omap_app, Hres, D2. }
    intros k Hk. rewrite drive_app, Hsub. cbn [fst snd].
    unfold resolved at 1. rewrite omap_app. fold (resolved (drive [(Analyze job, responses)] idle).2).
    rewrite Hres. cbn [app]. f_equal.
    clear Hsub Hres D1 D2 Hlen' submits. unfold fires. clear fires.
    rewrite <- fmap_take.
    assert (length (take k (rs :: rss)) <= S (length jobs.*1))%nat as Hk'
      by (rewrite length_take, length_fmap; simpl in *; lia).
    assert (length (take k (rs :: rss)) = k) as Hk'' by (rewrite length_take; lia).
    revert Hk' Hk''. generalize (take k (rs :: rss)). clear. intros fired.
    generalize true as busy. revert k fired. generalize (jobs.*1) as queue. clear.
    induction queue as [|j queue IH]; intros k fired busy Hle Hk.
    + rewrite take_nil. clear Hk.
      destruct fired as [|rs [|]]; [done|done|simpl in Hle; lia].
    + destruct fired as [|rs fired]; [by subst k|]. simpl in Hk. subst k.
      cbn [fmap list_fmap take]. rewrite drive_cons.
      change (list_fmap _ _ ?f fired) with (f <$> fired).
      cbn [dispatch]. unfold timer_fires, processQueue.
      cbn [isProcessingQueue requestQueue].
      simpl in Hle.
      destruct (performGeminiRequest rs (sosData j)) as [[result|e] steps];
        cbn [fst snd];
        destruct (resolved_requests steps) as (Hr & _);
        unfold resolved in *; rewrite !omap_app, Hr; cbn [app omap];
        f_equal; apply IH; lia.
Qed.

Lemma queue_drains_witness :
  let a := {| sosData := Some "a"; promise := 1 |} in
  let b := {| sosData := None; promise := 2 |} in
  let c := {| sosData := Some "c"; promise := 3 |} in
  let down := fun _ : nat => FetchFails in
  resolved (drive ([(Analyze a, down); (Analyze b, down); (Analyze c, down)]
                     ++ [(TimerFires, down); (TimerFires, down); (TimerFires, down)])
              idle).2
  = [1; 2; 3]%nat.
Proof.
  intros a b c down.
  exact (proj1 (proj2 (proj2 (proj2
    (queue_drains [(a, down); (b, down); (c, down)] [down; down; down] eq_refl))))).
Defined.

End GeminiMoreProperties.

(* ===================================================================== *)
(** * Properties of the fallback triage *)
(* ===================================================================== *)

Section TriageProperties.

Import Triage.

Implicit Types (needle hay msg before after : string).

Lemma starts_with_spec needle hay :
  starts_with needle hay = true <-> exists rest, hay = needle +:+ rest.
Proof.
  revert hay. induction needle as [|a needle IH]; intros hay.
  - simpl. split; [by exists hay|done].
  - destruct hay as [|b hay]; simpl.
    + split; [done|]. by intros [rest ?].
    + rewrite andb_true_iff, IH, Ascii.eqb_eq. split.
      * intros [-> [rest ->]]. by exists rest.
      * intros [rest [= -> ->]]. split; [done|]. by exists rest.
Qed.

Lemma includes_spec needle hay :
  includes needle hay = true <-> exists before after, hay = before +:+ needle +:+ after.
Proof.
  induction hay as [|b hay IH]; simpl.
  - rewrite starts_with_spec. split.
    + intros [rest H]. by exists EmptyString, rest.
    + intros ([|] & after & H); [|done]. by exists after.
  - rewrite orb_true_iff, IH, starts_with_spec. split.
    + intros [[rest H]|(before & after & ->)].
      * by exists EmptyString, rest.
      * by exists (String b before), after.
    + intros ([|c before] & after & H).
      * left. by exists after.
      * right. simpl in H. injection H as -> ->. by exists before, after.
Qed.

Lemma append_assoc (s1 s2 s3 : string) : (s1 +:+ s2) +:+ s3 = s1 +:+ (s2 +:+ s3).
Proof.
  induction s1 as [|a s1 IH]; [done|].
  change (String a ((s1 +:+ s2) +:+ s3) = String a (s1 +:+ (s2 +:+ s3))).
  by rewrite IH.
Qed.

Lemma includes_extend needle before msg after :
  includes needle msg = true -> includes needle (before +:+ msg +:+ after) = true.
Proof.
  rewrite !includes_spec. intros (b & a & ->).
  exists (before +:+ b), (a +:+ after).
  by rewrite !append_assoc.
Qed.

(** X19.  The fallback triage gives one of three verdicts, score 9, 7 or 5
    with the priority that goes with it, and text added before or after a
    message never lowers its score: a keyword found in the message is
    still found in the longer one. *)
Theorem fallback_monotone before msg after :
  (fallbackScore (fallback msg) <= fallbackScore (fallback (before +:+ msg +:+ after)))
  /\ ((fallbackPriority (fallback msg), fallbackScore (fallback msg))
      ∈ [("Critical"%string, 9); ("High"%string, 7); ("Medium"%string, 5)]).
Proof.
  split.
  - unfold fallback.
    pose proof (fun k => includes_extend k before msg after) as Hext.
    destruct (includes "fire" msg) eqn:H1; [rewrite (Hext _ H1); simpl; lia|].
    destruct (includes "blood" msg) eqn:H2;
      [rewrite (Hext _ H2), !orb_true_r; simpl; lia|].
    destruct (includes "critical" msg) eqn:H3;
      [rewrite (Hext _ H3), !orb_true_r; simpl; lia|].
    destruct (includes "help" msg) eqn:H4;
      [rewrite (Hext _ H4), !orb_true_r; simpl; lia|].
    destruct (includes "emergency" msg) eqn:H5;
      [rewrite (Hext _ H5), !orb_true_r; simpl; lia|].
    cbn [orb].
    set (long := (before +:+ msg +:+ after)%string) in *.
    destruct (includes "fire" long || includes "blood" long || includes "critical" long
              || includes "help" long || includes "emergency" long);
      [by destruct (_ || _ || _)|].
    destruct (includes "hurt" msg) eqn:H6; [rewrite (Hext _ H6); simpl; lia|].
    destruct (includes "pain" msg) eqn:H7;
      [rewrite (Hext _ H7), !orb_true_r; simpl; lia|].
    destruct (includes "lost" msg) eqn:H8;
      [rewrite (Hext _ H8), !orb_true_r; simpl; lia|].
    cbn [orb]. by destruct (_ || _ || _).
  - unfold fallback.
    destruct (_ || _ || _ || _ || _); [apply list_elem_of_here|].
    destruct (_ || _ || _);
      [apply list_elem_of_further, list_elem_of_here|].
    do 2 apply list_elem_of_further. apply list_elem_of_here.
Qed.

End TriageProperties.
